(** * monitor.py: a page monitor that mails an alert when a text shows up

    A shallow embedding of [monitor.py] and the properties its specification
    states about it.

    Python values are modelled as follows.
    - A [str] is a [string]: the sequence of its code points, for text within
      Latin-1 (one [ascii] per code point, 0 to 255).  [strip], [lower],
      [split], [join], [in] and [startswith] are written out below with
      Python's meaning on that range.
    - Lists are [list]; [None] is [option]'s [None]; an [int] is a [Z].
    - What the program asks of its libraries ([json], [bs4], [requests],
      [smtplib]) is gathered in three interfaces ([JsonLib], [HtmlLib],
      [Network]); the program is written against them, and every theorem
      holds for every implementation of them.  [SelectorSyntax] says which
      selectors the engine behind [select] refuses.
    - Logging, HTTP requests, pauses and the SMTP dialogue are events of a
      trace; a computation reads the events so far and returns the events it
      adds. *)

From Stdlib Require Import String Ascii List Bool Arith ZArith Lia.
From Stdlib Require Import DecimalString.
Import ListNotations.
Open Scope string_scope.
Open Scope list_scope.

(** ** Python strings *)

Module Str.

(** Characters the sources name by escape or that need quoting. *)
Definition LF : ascii := ascii_of_nat 10.
Definition DQUOTE : ascii := ascii_of_nat 34.

(** A one-character [str]. *)
Definition chr (c : ascii) : string := String c EmptyString.

(** Truth value of a [str]: [bool(s)], false only for the empty one. *)
Definition truthy (s : string) : bool :=
  match s with
  | EmptyString => false
  | String _ _ => true
  end.

(** [str.isspace] of one code point below 256: TAB to CR, the separators
    FS to US, space, NEL and the no-break space. *)
Definition isspace (c : ascii) : bool :=
  let n := nat_of_ascii c in
  (((9 <=? n) && (n <=? 13)) || ((28 <=? n) && (n <=? 32))
   || (n =? 133) || (n =? 160))%nat.

(** [str.lower] of one code point below 256: A to Z, and the Latin-1 capitals
    0xC0 to 0xDE but for the multiplication sign 0xD7. *)
Definition lower_char (c : ascii) : ascii :=
  let n := nat_of_ascii c in
  if (((65 <=? n) && (n <=? 90))
      || ((192 <=? n) && (n <=? 222) && negb (n =? 215)))%nat
  then ascii_of_nat (n + 32)
  else c.

(** [s.lower()] *)
Fixpoint lower (s : string) : string :=
  match s with
  | EmptyString => EmptyString
  | String c r => String (lower_char c) (lower r)
  end.

(** [s.lstrip()] *)
Fixpoint lstrip (s : string) : string :=
  match s with
  | EmptyString => EmptyString
  | String c r => if isspace c then lstrip r else s
  end.

(** [s.rstrip()] *)
Fixpoint rstrip (s : string) : string :=
  match s with
  | EmptyString => EmptyString
  | String c r =>
      match rstrip r with
      | EmptyString => if isspace c then EmptyString else chr c
      | String _ _ as r' => String c r'
      end
  end.

(** [s.strip()] *)
Definition strip (s : string) : string := rstrip (lstrip s).

(** [s.startswith(p)] *)
Fixpoint startswith (s p : string) {struct p} : bool :=
  match p with
  | EmptyString => true
  | String b p' =>
      match s with
      | EmptyString => false
      | String a s' => Ascii.eqb a b && startswith s' p'
      end
  end.

(** [sub in s] *)
Fixpoint contains (sub s : string) : bool :=
  startswith s sub
  || match s with
     | EmptyString => false
     | String _ r => contains sub r
     end.

(** [c in s] for a one-character [c]. *)
Fixpoint char_in (c : ascii) (s : string) : bool :=
  match s with
  | EmptyString => false
  | String a r => Ascii.eqb a c || char_in c r
  end.

(** [s.split(sep)] for a one-character [sep]: never an empty list, one more
    piece than there are separators. *)
Fixpoint split (sep : ascii) (s : string) : list string :=
  match s with
  | EmptyString => [EmptyString]
  | String c r =>
      if Ascii.eqb c sep then EmptyString :: split sep r
      else match split sep r with
           | piece :: pieces => String c piece :: pieces
           | [] => [chr c]
           end
  end.

(** [sep.join(items)] *)
Fixpoint join (sep : string) (items : list string) : string :=
  match items with
  | [] => EmptyString
  | [x] => x
  | x :: rest => x ++ sep ++ join sep rest
  end.

(** [str(n)] for a length: decimal digits. *)
Definition of_nat (n : nat) : string :=
  NilEmpty.string_of_uint (Nat.to_uint n).

(** Whitespace at either end of a [str]. *)
Definition leading_ws (s : string) : bool :=
  match s with
  | EmptyString => false
  | String c _ => isspace c
  end.

Fixpoint trailing_ws (s : string) : bool :=
  match s with
  | EmptyString => false
  | String c EmptyString => isspace c
  | String _ r => trailing_ws r
  end.

(** A trimmed [str] has whitespace at neither end. *)
Definition trimmed (s : string) : bool :=
  negb (leading_ws s) && negb (trailing_ws s).

(** A [str] made of whitespace only (the empty one included). *)
Fixpoint blank (s : string) : bool :=
  match s with
  | EmptyString => true
  | String c r => isspace c && blank r
  end.

End Str.

(** ** Values, libraries and effects *)

(** What [json.loads] can return. *)
#[local] Set Warnings "-register-all".
Inductive pyvalue : Type :=
| PyNone
| PyBool (b : bool)
| PyInt (z : Z)
| PyFloat (lexeme : string)
| PyStr (s : string)
| PyList (items : list pyvalue)
| PyDict (entries : list (string * pyvalue)).

(** [iter(v)]: the items a [for] clause visits, [None] where Python raises
    TypeError (the value is not iterable).  A dict yields its keys and a
    [str] its characters. *)
Fixpoint chars (s : string) : list pyvalue :=
  match s with
  | EmptyString => []
  | String c r => PyStr (Str.chr c) :: chars r
  end.

Definition py_iter (v : pyvalue) : option (list pyvalue) :=
  match v with
  | PyList items => Some items
  | PyDict entries => Some (map (fun kv => PyStr (fst kv)) entries)
  | PyStr s => Some (chars s)
  | PyNone | PyBool _ | PyInt _ | PyFloat _ => None
  end.

(** The [json] module: [json_loads raw] is [None] where [json.loads(raw)]
    raises. *)
Class JsonLib : Type := {
  json_loads : string -> option pyvalue
}.

(** The [bs4] module.  [BeautifulSoup html] stands for
    [BeautifulSoup(html, "html.parser")], [get_text t] for
    [t.get_text(separator=" ", strip=True)], and [select t sel] for
    [t.select(sel)] with a selector the engine accepts. *)
Class HtmlLib : Type := {
  tag : Type;
  BeautifulSoup : string -> tag;
  select : tag -> string -> list tag;
  get_text : tag -> string
}.

(** The selector engine behind [select]: [compiles sel] is false where it
    raises SelectorSyntaxError, as on an unclosed bracket. *)
Class SelectorSyntax : Type := {
  compiles : string -> bool
}.

(** An outgoing mail, as [send_email] fills its [EmailMessage]. *)
Record EmailMessage : Type := {
  msg_From : string;
  msg_To : string;
  msg_Subject : string;
  msg_content : string
}.

(** A pause length [time.sleep] accepts, in milliseconds. *)
Definition duration : Type := N.

Inductive level : Type := INFO | WARNING | ERROR.

(** What a run does to the outside world, in order. *)
Inductive event : Type :=
| Log (lvl : level) (msg : string)
| HttpGet (url : string) (timeout : Z)
| Sleep (d : duration)
| SmtpConnect (server : string) (port : Z)
| SmtpStartTls
| SmtpLogin (user password : string)
| SmtpSendMessage (msg : EmailMessage)
| SmtpQuit.

Definition trace : Type := list event.

(** The answer to one GET: the decoded body of a 2xx response, or the
    exception [requests] raised. *)
Inductive response : Type :=
| Body (text : string)
| RequestError (reason : string).

(** The connection when a step of the session fails: the server answered
    with an error and the connection stands, or the connection is gone. *)
Inductive link : Type := StillOpen | Dropped.

(** How far the [try] block of [send_email] gets: the step that raises, or
    [Delivered].  A step that fails after the connection is made says what
    is left of the connection. *)
Inductive smtp_outcome : Type :=
| MessageRefused (reason : string)
| ConnectFailed (reason : string)
| StartTlsFailed (reason : string) (after : link)
| LoginFailed (reason : string) (after : link)
| SendFailed (reason : string) (after : link)
| QuitFailed (reason : string)
| Delivered.

(** The network: what a request or an SMTP session meets, given everything
    the run has done so far. *)
Class Network : Type := {
  http_get : trace -> string -> Z -> response;
  smtp_session : trace -> string -> Z -> string -> string -> EmailMessage
                 -> smtp_outcome
}.

(** Computations: read the events so far, return a value and the events
    added. *)
Definition M (A : Type) : Type := trace -> A * list event.

Definition ret {A : Type} (a : A) : M A := fun _ => (a, []).

Definition bind {A B : Type} (m : M A) (f : A -> M B) : M B :=
  fun past =>
    let (a, e1) := m past in
    let (b, e2) := f a (past ++ e1) in
    (b, e1 ++ e2).

Definition emit (e : event) : M unit := fun _ => (tt, [e]).

Definition history : M trace := fun past => (past, []).

Notation "x <- m ;; k" := (bind m (fun x => k))
  (at level 61, m at next level, right associativity).
Notation "m ;; k" := (bind m (fun _ => k))
  (at level 61, right associativity).

Definition log (lvl : level) (msg : string) : M unit := emit (Log lvl msg).

(** The value and the events of a computation run after [past]. *)
Definition value {A : Type} (m : M A) (past : trace) : A := fst (m past).
Definition events {A : Type} (m : M A) (past : trace) : list event :=
  snd (m past).

(** ** The environment *)

(** The process environment as the module reads it: [None] for a variable
    that is not set.  The three numeric settings are held once converted
    ([int], [int] and [float] of the variable or of its default [587], [20]
    and [1.0]). *)
Record Environment : Type := {
  env_TARGET_URLS : option string;
  env_SEARCH_TEXT : option string;
  env_RECIPIENT_EMAIL : option string;
  env_SMTP_SERVER : option string;
  env_SMTP_PORT : Z;
  env_SMTP_USER : option string;
  env_SMTP_PASS : option string;
  env_HTTP_TIMEOUT : Z;
  env_REQUEST_DELAY_SEC : duration;
  env_CSS_SELECTOR : option string
}.

(** [os.getenv(name, default)] on the value read for [name]. *)
Definition getenv (v : option string) (default : string) : string :=
  match v with
  | Some s => s
  | None => default
  end.

(** Truth value of an optional [str]: [None] and the empty one are false. *)
Definition truthy_opt (v : option string) : bool :=
  match v with
  | Some s => Str.truthy s
  | None => false
  end.

(** ** The program *)

Section Monitor.

Context {json : JsonLib} {bs4 : HtmlLib} {net : Network}.
Variable env : Environment.

(** Module globals (lines 15 to 24). *)
Definition _TARGET_URLS_RAW : string :=
  Str.strip (getenv (env_TARGET_URLS env) EmptyString).
Definition SEARCH_TEXT : string :=
  Str.strip (getenv (env_SEARCH_TEXT env) "SOLD OUT").
Definition RECIPIENT : string :=
  Str.strip (getenv (env_RECIPIENT_EMAIL env) "slava15.92@gmail.com").
Definition SMTP_SERVER : option string := env_SMTP_SERVER env.
Definition SMTP_PORT : Z := env_SMTP_PORT env.
Definition SMTP_USER : option string := env_SMTP_USER env.
Definition SMTP_PASS : option string := env_SMTP_PASS env.
Definition TIMEOUT : Z := env_HTTP_TIMEOUT env.
Definition REQUEST_DELAY_SEC : duration := env_REQUEST_DELAY_SEC env.
Definition CSS_SELECTOR : string :=
  Str.strip (getenv (env_CSS_SELECTOR env) EmptyString).

(** *** [parse_urls] (lines 29 to 46) *)

(** Line 36: the stripped text of every item that is a [str] and does not
    strip to nothing. *)
Definition stripped_strings (arr : list pyvalue) : list string :=
  flat_map
    (fun u =>
       match u with
       | PyStr s => if Str.truthy (Str.strip s) then [Str.strip s] else []
       | _ => []
       end)
    arr.

(** Lines 35 and 36, the body of the [try]: [None] when it raises, in
    [json.loads] or on iterating what it returned. *)
Definition json_urls (raw : string) : option (list string) :=
  match json_loads raw with
  | Some arr =>
      match py_iter arr with
      | Some items => Some (stripped_strings items)
      | None => None
      end
  | None => None
  end.

(** Lines 40 to 45: the first separator found in [raw] splits it, and no
    later one is tried; [[]] when none is found. *)
Fixpoint split_parts (seps : list ascii) (raw : string) : list string :=
  match seps with
  | [] => []
  | sep :: seps' =>
      if Str.char_in sep raw
      then filter Str.truthy (map Str.strip (Str.split sep raw))
      else split_parts seps' raw
  end.

Definition parse_urls (raw : string) : M (list string) :=
  if negb (Str.truthy raw) then ret []
  else
    decoded <-
      (if Str.startswith raw "["
       then match json_urls raw with
            | Some urls => ret (Some urls)
            | None =>
                log WARNING
                  "Failed to parse TARGET_URLS as JSON; will try splitting text.";;
                ret None
            end
       else ret None);;
    match decoded with
    | Some urls => ret urls
    | None =>
        let parts := split_parts [Str.LF; ","%char] raw in
        ret (match parts with
             | [] => [raw]
             | _ :: _ => parts
             end)
    end.

(** *** [fetch_html] (lines 48 to 58) *)

Definition fetch_html (url : string) (timeout : Z) : M (option string) :=
  emit (HttpGet url timeout);;
  past <- history;;
  match http_get past url timeout with
  | Body text => ret (Some text)
  | RequestError e =>
      log ERROR ("Error fetching URL " ++ url ++ ": " ++ e);;
      ret None
  end.

(** *** [page_contains_text] (lines 60 to 67) *)

Definition page_contains_text (html text css_selector : string) : bool :=
  let soup := BeautifulSoup html in
  let haystack :=
    if Str.truthy css_selector
    then let selection := select soup css_selector in
         Str.join " " (map get_text selection)
    else get_text soup in
  Str.contains (Str.lower text) (Str.lower haystack).

(** *** [send_email] (lines 69 to 88) *)

(** The text of a setting that is known to be set. *)
Definition the (v : option string) : string := getenv v EmptyString.

(** Leaving the [with] block sends QUIT on a connection that stands, and
    nothing on one that is gone. *)
Definition quit (after : link) : list event :=
  match after with
  | StillOpen => [SmtpQuit]
  | Dropped => []
  end.

(** What the [try] block does on the wire and how it ends, by the step that
    raises. *)
Definition smtp_events (server : string) (port : Z) (user password : string)
    (msg : EmailMessage) (o : smtp_outcome) : list event :=
  match o with
  | MessageRefused _ => []
  | ConnectFailed _ => [SmtpConnect server port]
  | StartTlsFailed _ after =>
      [SmtpConnect server port; SmtpStartTls] ++ quit after
  | LoginFailed _ after =>
      [SmtpConnect server port; SmtpStartTls; SmtpLogin user password]
      ++ quit after
  | SendFailed _ after =>
      [SmtpConnect server port; SmtpStartTls; SmtpLogin user password;
       SmtpSendMessage msg] ++ quit after
  | QuitFailed _ | Delivered =>
      [SmtpConnect server port; SmtpStartTls; SmtpLogin user password;
       SmtpSendMessage msg; SmtpQuit]
  end.

Definition smtp_error (o : smtp_outcome) : option string :=
  match o with
  | MessageRefused e | ConnectFailed e | StartTlsFailed e _
  | LoginFailed e _ | SendFailed e _ | QuitFailed e => Some e
  | Delivered => None
  end.

Definition send_email (subject body : string) : M bool :=
  if negb (forallb (fun b : bool => b)
             [truthy_opt SMTP_SERVER; negb (Z.eqb SMTP_PORT 0);
              truthy_opt SMTP_USER; truthy_opt SMTP_PASS])
  then log ERROR "SMTP credentials not fully configured.";; ret false
  else
    let msg := {| msg_From := the SMTP_USER; msg_To := RECIPIENT;
                  msg_Subject := subject; msg_content := body |} in
    past <- history;;
    let o := smtp_session past (the SMTP_SERVER) SMTP_PORT (the SMTP_USER)
               (the SMTP_PASS) msg in
    (fun _ => (tt, smtp_events (the SMTP_SERVER) SMTP_PORT (the SMTP_USER)
                     (the SMTP_PASS) msg o));;
    match smtp_error o with
    | None => log INFO ("Email sent to " ++ RECIPIENT);; ret true
    | Some e => log ERROR ("Failed to send email: " ++ e);; ret false
    end.

(** *** [check_urls] (lines 90 to 103) *)

(** The [for] loop, from the lists built so far. *)
Fixpoint check_urls_from (urls : list string) (search_text selector : string)
    (hits misses : list string) : M (list string * list string) :=
  match urls with
  | [] => ret (hits, misses)
  | url :: rest =>
      log INFO ("Checking " ++ url ++ " for text '" ++ search_text
                ++ "' ...");;
      html <- fetch_html url TIMEOUT;;
      let '(hits', misses') :=
        match html with
        | None => (hits, misses ++ [(url ++ " [fetch error]")%string])
        | Some html =>
            if page_contains_text html search_text selector
            then (hits ++ [url], misses)
            else (hits, misses ++ [url])
        end in
      emit (Sleep REQUEST_DELAY_SEC);;
      check_urls_from rest search_text selector hits' misses'
  end.

Definition check_urls (urls : list string) (search_text selector : string)
  : M (list string * list string) :=
  check_urls_from urls search_text selector [] [].

(** *** [main] (lines 105 to 133) *)

(** Line 116 *)
Definition subject (hits urls : list string) : string :=
  "[ALERT] Found '" ++ SEARCH_TEXT ++ "' on "
  ++ Str.of_nat (List.length hits) ++ "/" ++ Str.of_nat (List.length urls)
  ++ " URL(s)".

(** Line 117 *)
Definition not_found_lines (misses : list string) : list string :=
  match misses with
  | [] => ["- (none)"]
  | _ :: _ => map (fun u : string => ("- " ++ u)%string) misses
  end.

(** Lines 119 to 130 *)
Definition body_lines (hits misses : list string) : list string :=
  [("Search text: '" ++ SEARCH_TEXT ++ "'")%string;
   ("CSS selector: '"
    ++ (if Str.truthy CSS_SELECTOR then CSS_SELECTOR else "N/A")
    ++ "'")%string;
   EmptyString;
   "Found on:"]
  ++ map (fun u : string => ("- " ++ u)%string) hits
  ++ [EmptyString; "Not found on:"]
  ++ not_found_lines misses
  ++ [EmptyString; "Checked by monitor.py"].

Definition main : M unit :=
  urls <- parse_urls _TARGET_URLS_RAW;;
  match urls with
  | [] => log ERROR "No TARGET_URLS configured. Set the TARGET_URLS env var."
  | _ :: _ =>
      found <- check_urls urls SEARCH_TEXT CSS_SELECTOR;;
      let '(hits, misses) := found in
      log INFO ("Done. Hits: " ++ Str.of_nat (List.length hits)
                ++ ", Misses: " ++ Str.of_nat (List.length misses));;
      match hits with
      | _ :: _ =>
          send_email (subject hits urls)
            (Str.join (Str.chr Str.LF) (body_lines hits misses));;
          ret tt
      | [] => log INFO "No matches found. No email sent."
      end
  end.

End Monitor.

(** ** A selector the engine refuses *)

(** [page_contains_text] with the exception of line 63 in sight: [None]
    when [select] raises on the selector, which nothing catches, and the
    answer of lines 64 to 67 otherwise.  Without a selector, [select] is not
    called. *)
Definition page_contains_text_or_raise {bs4 : HtmlLib}
    {syntax : SelectorSyntax} (html text css_selector : string)
  : option bool :=
  if Str.truthy css_selector && negb (compiles css_selector)
  then None
  else Some (page_contains_text html text css_selector).

(** ** Reference libraries

    Small implementations of the three interfaces, to run the program on
    concrete inputs.  Each is exact on the inputs it is used with below:
    [json_loads] decodes an array of string literals without escapes (and
    rejects everything else), the HTML reader handles plain text inside
    properly nested tags without attributes, and [select] knows type
    selectors (an element name). *)

Module Reference.

(** *** JSON: arrays of plain string literals *)

Definition json_ws (c : ascii) : bool :=
  let n := nat_of_ascii c in
  ((n =? 32) || (n =? 9) || (n =? 10) || (n =? 13))%nat.

Fixpoint skip_ws (s : string) : string :=
  match s with
  | EmptyString => EmptyString
  | String c r => if json_ws c then skip_ws r else s
  end.

(** After an opening quote: the literal's text and what follows its closing
    quote. *)
Fixpoint read_literal (s : string) : option (string * string) :=
  match s with
  | EmptyString => None
  | String c r =>
      if Ascii.eqb c Str.DQUOTE then Some (EmptyString, r)
      else if Ascii.eqb c "\"%char || (nat_of_ascii c <? 32)%nat then None
      else match read_literal r with
           | Some (text, rest) => Some (String c text, rest)
           | None => None
           end
  end.

(** After [[] or a comma: the remaining items, up to the end of the text. *)
Fixpoint read_items (fuel : nat) (s : string) : option (list pyvalue) :=
  match fuel with
  | O => None
  | S fuel' =>
      match skip_ws s with
      | String c r =>
          if Ascii.eqb c Str.DQUOTE then
            match read_literal r with
            | Some (text, rest) =>
                match skip_ws rest with
                | String d rest' =>
                    if Ascii.eqb d ","%char then
                      option_map (cons (PyStr text)) (read_items fuel' rest')
                    else if Ascii.eqb d "]"%char then
                      match skip_ws rest' with
                      | EmptyString => Some [PyStr text]
                      | String _ _ => None
                      end
                    else None
                | EmptyString => None
                end
            | None => None
            end
          else None
      | EmptyString => None
      end
  end.

Definition loads (s : string) : option pyvalue :=
  match skip_ws s with
  | String c r =>
      if Ascii.eqb c "["%char then
        match skip_ws r with
        | String d r' =>
            if Ascii.eqb d "]"%char then
              match skip_ws r' with
              | EmptyString => Some (PyList [])
              | String _ _ => None
              end
            else option_map PyList (read_items (String.length s) r)
        | EmptyString => None
        end
      else None
  | EmptyString => None
  end.

Definition Json : JsonLib := {| json_loads := loads |}.

(** *** HTML: text and nested elements *)

#[local] Set Warnings "-register-all".
Inductive node : Type :=
| Text (s : string)
| Element (name : string) (children : list node).

Inductive token : Type :=
| TText (s : string)
| TOpen (name : string)
| TClose (name : string).

(** The text up to the first [stop], and what follows it. *)
Fixpoint upto (stop : ascii) (s : string) : option (string * string) :=
  match s with
  | EmptyString => None
  | String c r =>
      if Ascii.eqb c stop then Some (EmptyString, r)
      else match upto stop r with
           | Some (a, b) => Some (String c a, b)
           | None => None
           end
  end.

(** The text before the next tag, and the rest from that tag on. *)
Fixpoint text_run (s : string) : string * string :=
  match s with
  | EmptyString => (EmptyString, EmptyString)
  | String c r =>
      if Ascii.eqb c "<"%char then (EmptyString, s)
      else let (a, b) := text_run r in (String c a, b)
  end.

Fixpoint tokens (fuel : nat) (s : string) : list token :=
  match fuel with
  | O => []
  | S fuel' =>
      match s with
      | EmptyString => []
      | String c r =>
          if Ascii.eqb c "<"%char then
            match upto ">"%char r with
            | Some (String "/"%char name, rest) =>
                TClose name :: tokens fuel' rest
            | Some (name, rest) => TOpen name :: tokens fuel' rest
            | None => [TText s]
            end
          else let (a, b) := text_run s in TText a :: tokens fuel' b
      end
  end.

(** Close the elements still open, innermost first. *)
Fixpoint close_all (open : list (string * list node)) (done : list node)
  : list node :=
  match open with
  | [] => rev done
  | (name, outer) :: open' =>
      close_all open' (Element name (rev done) :: outer)
  end.

(** [open] holds the open elements, innermost first, each with its earlier
    siblings; [done] the current element's children so far, last first. *)
Fixpoint build (toks : list token) (open : list (string * list node))
    (done : list node) : list node :=
  match toks with
  | [] => close_all open done
  | TText s :: toks' => build toks' open (Text s :: done)
  | TOpen name :: toks' => build toks' ((name, done) :: open) []
  | TClose _ :: toks' =>
      match open with
      | (name, outer) :: open' =>
          build toks' open' (Element name (rev done) :: outer)
      | [] => build toks' [] done
      end
  end.

Definition parse (html : string) : node :=
  Element "[document]" (build (tokens (String.length html) html) [] []).

(** The elements below [n], in document order. *)
Fixpoint descendants (n : node) : list node :=
  match n with
  | Text _ => []
  | Element _ children =>
      flat_map
        (fun k =>
           match k with
           | Text _ => []
           | Element _ _ => k :: descendants k
           end)
        children
  end.

Definition named (name : string) (n : node) : bool :=
  match n with
  | Text _ => false
  | Element m _ => String.eqb m name
  end.

Definition select_by_name (n : node) (sel : string) : list node :=
  filter (named sel) (descendants n).

(** The text pieces below [n], in document order. *)
Fixpoint strings (n : node) : list string :=
  match n with
  | Text s => [s]
  | Element _ children => flat_map strings children
  end.

Definition text_of (n : node) : string :=
  Str.join " " (filter Str.truthy (map Str.strip (strings n))).

Definition Html : HtmlLib :=
  {| tag := node; BeautifulSoup := parse; select := select_by_name;
     get_text := text_of |}.

(** Selectors: an element name, made of letters, digits, hyphens and
    underscores. *)
Definition name_char (c : ascii) : bool :=
  let n := nat_of_ascii c in
  (((48 <=? n) && (n <=? 57)) || ((65 <=? n) && (n <=? 90))
   || ((97 <=? n) && (n <=? 122)) || (n =? 45) || (n =? 95))%nat.

Fixpoint all_name_chars (s : string) : bool :=
  match s with
  | EmptyString => true
  | String c r => name_char c && all_name_chars r
  end.

Definition Syntax : SelectorSyntax :=
  {| compiles := fun sel => Str.truthy sel && all_name_chars sel |}.

(** *** Networks *)

(** Every request fails. *)
Definition Offline : Network :=
  {| http_get := fun _ _ _ => RequestError "ConnectionError";
     smtp_session := fun _ _ _ _ _ _ => Delivered |}.

(** Two pages, one showing the text; the mail relay works. *)
Definition sold_out_page : string :=
  "<html><body><h1>Widget</h1><p>Sold Out Today</p></body></html>".
Definition in_stock_page : string :=
  "<html><body><h1>Gadget</h1><p>In stock</p></body></html>".

Definition Shop : Network :=
  {| http_get := fun _ url _ =>
       if String.eqb url "https://a.test" then Body sold_out_page
       else if String.eqb url "https://b.test" then Body in_stock_page
       else RequestError "404 Client Error";
     smtp_session := fun _ _ _ _ _ _ => Delivered |}.

(** A full configuration but for the URLs. *)
Definition settings (urls : option string) : Environment :=
  {| env_TARGET_URLS := urls;
     env_SEARCH_TEXT := None;
     env_RECIPIENT_EMAIL := None;
     env_SMTP_SERVER := Some "smtp.test";
     env_SMTP_PORT := 587;
     env_SMTP_USER := Some "monitor@smtp.test";
     env_SMTP_PASS := Some "secret";
     env_HTTP_TIMEOUT := 20;
     env_REQUEST_DELAY_SEC := 1000%N;
     env_CSS_SELECTOR := None |}.

(** The same with no SMTP password. *)
Definition no_password (urls : option string) : Environment :=
  {| env_TARGET_URLS := urls;
     env_SEARCH_TEXT := None;
     env_RECIPIENT_EMAIL := None;
     env_SMTP_SERVER := Some "smtp.test";
     env_SMTP_PORT := 587;
     env_SMTP_USER := Some "monitor@smtp.test";
     env_SMTP_PASS := None;
     env_HTTP_TIMEOUT := 20;
     env_REQUEST_DELAY_SEC := 1000%N;
     env_CSS_SELECTOR := None |}.

(** The pages of [Shop] behind a mail relay that refuses the login. *)
Definition Rejecting : Network :=
  {| http_get := @http_get Shop;
     smtp_session := fun _ _ _ _ _ _ =>
       LoginFailed "535 Authentication failed" StillOpen |}.

(** The same pages behind a relay that goes away while the message is
    sent. *)
Definition Dropping : Network :=
  {| http_get := @http_get Shop;
     smtp_session := fun _ _ _ _ _ _ =>
       SendFailed "Server not connected" Dropped |}.

(** A configuration whose selector is made of spaces. *)
Definition spaced_selector (urls : option string) : Environment :=
  {| env_TARGET_URLS := urls;
     env_SEARCH_TEXT := None;
     env_RECIPIENT_EMAIL := None;
     env_SMTP_SERVER := Some "smtp.test";
     env_SMTP_PORT := 587;
     env_SMTP_USER := Some "monitor@smtp.test";
     env_SMTP_PASS := Some "secret";
     env_HTTP_TIMEOUT := 20;
     env_REQUEST_DELAY_SEC := 1000%N;
     env_CSS_SELECTOR := Some "   " |}.

(** URL settings: two entries on one line, two entries with a line break
    after the comma, and a JSON array. *)
Definition two_urls : string := "https://a.test,https://b.test".
Definition down_urls : string := "https://c.test,https://d.test".
Definition three_urls : string :=
  "https://a.test,https://b.test,https://c.test".
Definition broken_line : list string :=
  ["https://a.test"; String Str.LF "https://b.test"].
Definition json_urls_text : string :=
  "[" ++ Str.chr Str.DQUOTE ++ "https://a.test" ++ Str.chr Str.DQUOTE
  ++ ", " ++ Str.chr Str.DQUOTE ++ " https://b.test " ++ Str.chr Str.DQUOTE
  ++ "]".

End Reference.

(** ** Notions of the specification *)

(** [sub] occurs somewhere in [s]. *)
Definition is_substring (sub s : string) : Prop :=
  exists pre post : string, s = (pre ++ sub ++ post)%string.

(** Equality of two lists of [str], as a test. *)
Fixpoint same_list (a b : list string) : bool :=
  match a, b with
  | [], [] => true
  | x :: a', y :: b' => String.eqb x y && same_list a' b'
  | _, _ => false
  end.

(** The trimmed, non-empty entries of a list, in its order. *)
Definition trimmed_nonempty (entries : list string) : list string :=
  filter Str.truthy (map Str.strip entries).

(** The three outcomes of a URL (specification, section 3). *)
Inductive MatchOutcome : Type := hit | miss | fetch_error.

Definition is_hit (o : MatchOutcome) : bool :=
  match o with
  | hit => true
  | miss | fetch_error => false
  end.

(** How a URL that is not a hit is shown: a fetch error carries a tag. *)
Definition display (entry : string * MatchOutcome) : string :=
  match snd entry with
  | fetch_error => (fst entry ++ " [fetch error]")%string
  | hit | miss => fst entry
  end.

Definition hits_of (l : list (string * MatchOutcome)) : list string :=
  map fst (filter (fun e => is_hit (snd e)) l).

Definition misses_of (l : list (string * MatchOutcome)) : list string :=
  map display (filter (fun e => negb (is_hit (snd e))) l).

(** What one URL adds to the two lists. *)
Definition hit_entry (url : string) (o : MatchOutcome) : list string :=
  hits_of [(url, o)].
Definition miss_entry (url : string) (o : MatchOutcome) : list string :=
  misses_of [(url, o)].

(** The line [main] logs after the loop (line 113). *)
Definition done_line (hits misses : list string) : event :=
  Log INFO ("Done. Hits: " ++ Str.of_nat (List.length hits)
            ++ ", Misses: " ++ Str.of_nat (List.length misses)).

(** Events by kind. *)
Definition is_fetch (e : event) : bool :=
  match e with
  | HttpGet _ _ => true
  | _ => false
  end.

Definition is_smtp (e : event) : bool :=
  match e with
  | SmtpConnect _ _ | SmtpStartTls | SmtpLogin _ _ | SmtpSendMessage _
  | SmtpQuit => true
  | Log _ _ | HttpGet _ _ | Sleep _ => false
  end.

Definition is_send (e : event) : bool :=
  match e with
  | SmtpSendMessage _ => true
  | _ => false
  end.

Definition fetches (evs : list event) : list event := filter is_fetch evs.
Definition smtp_calls (evs : list event) : list event := filter is_smtp evs.
Definition emails_sent (evs : list event) : nat :=
  List.length (filter is_send evs).

(** Log lines apart, what a run does. *)
Definition is_log (e : event) : bool :=
  match e with
  | Log _ _ => true
  | _ => false
  end.

Definition actions (evs : list event) : list event :=
  filter (fun e => negb (is_log e)) evs.

(** One request per URL, each followed by a pause. *)
Definition paced_requests (timeout : Z) (delay : duration)
    (urls : list string) : list event :=
  flat_map (fun u => [HttpGet u timeout; Sleep delay]) urls.

Section Notions.

Context {json : JsonLib} {bs4 : HtmlLib} {net : Network}.

(** The searchable text (specification, section 4.3): with a selector, the
    visible text of every matching element, joined by spaces; without one,
    the visible text of the whole document. *)
Definition searchable_text (html css_selector : string) : string :=
  match css_selector with
  | EmptyString => get_text (BeautifulSoup html)
  | String _ _ =>
      Str.join " " (map get_text (select (BeautifulSoup html) css_selector))
  end.

(** [parse_urls] answers from the JSON reading of [raw]. *)
Definition reads_as_json (raw : string) : bool :=
  Str.startswith raw "["
  && match json_urls raw with
     | Some _ => true
     | None => false
     end.

(** [raw] lists [entries] in one of the accepted shapes: a JSON array of
    strings that starts the text; lines, two or more; comma-separated
    entries on one line; or a single trimmed entry.  Outside JSON, some
    entry is not blank. *)
Inductive url_listing : string -> list string -> Prop :=
| listing_json (raw : string) (entries : list string) :
    Str.startswith raw "[" = true ->
    json_loads raw = Some (PyList (map PyStr entries)) ->
    url_listing raw entries
| listing_lines (entries : list string) :
    reads_as_json (Str.join (Str.chr Str.LF) entries) = false ->
    Forall (fun e => Str.char_in Str.LF e = false) entries ->
    2 <= List.length entries ->
    Exists (fun e => Str.blank e = false) entries ->
    url_listing (Str.join (Str.chr Str.LF) entries) entries
| listing_commas (entries : list string) :
    reads_as_json (Str.join "," entries) = false ->
    Forall (fun e => Str.char_in Str.LF e = false) entries ->
    Forall (fun e => Str.char_in ","%char e = false) entries ->
    2 <= List.length entries ->
    Exists (fun e => Str.blank e = false) entries ->
    url_listing (Str.join "," entries) entries
| listing_single (raw : string) :
    reads_as_json raw = false ->
    Str.char_in Str.LF raw = false ->
    Str.char_in ","%char raw = false ->
    Str.trimmed raw = true ->
    Str.truthy raw = true ->
    url_listing raw [raw].

Variable env : Environment.

(** Some SMTP parameter is missing: not set or empty, or a port of zero. *)
Definition smtp_incomplete : Prop :=
  truthy_opt (SMTP_SERVER env) = false
  \/ SMTP_PORT env = 0%Z
  \/ truthy_opt (SMTP_USER env) = false
  \/ truthy_opt (SMTP_PASS env) = false.

(** One turn of the loop of [check_urls], seen as a classification. *)
Definition visit (url search_text selector : string) : M MatchOutcome :=
  log INFO ("Checking " ++ url ++ " for text '" ++ search_text ++ "' ...");;
  html <- fetch_html url (TIMEOUT env);;
  emit (Sleep (REQUEST_DELAY_SEC env));;
  ret match html with
      | None => fetch_error
      | Some html =>
          if page_contains_text html search_text selector then hit else miss
      end.

(** The outcome of every URL, visited in order. *)
Fixpoint outcomes (urls : list string) (search_text selector : string)
  : M (list MatchOutcome) :=
  match urls with
  | [] => ret []
  | url :: rest =>
      o <- visit url search_text selector;;
      os <- outcomes rest search_text selector;;
      ret (o :: os)
  end.

(** The hit list of a run: what [check_urls] returns first for the parsed
    URLs. *)
Definition hit_list : M (list string) :=
  urls <- parse_urls (_TARGET_URLS_RAW env);;
  found <- check_urls env urls (SEARCH_TEXT env) (CSS_SELECTOR env);;
  ret (fst found).

(** The outcomes of a run: those of the parsed URLs, visited as [main]
    has them checked. *)
Definition run_outcomes : M (list MatchOutcome) :=
  urls <- parse_urls (_TARGET_URLS_RAW env);;
  outcomes urls (SEARCH_TEXT env) (CSS_SELECTOR env).

End Notions.

(** * Properties *)

(** ** Strings *)

Module StrFacts.
Import Str.

Lemma truthy_false (s : string) : truthy s = false <-> s = EmptyString.
Proof. destruct s; simpl; split; congruence. Qed.

Lemma truthy_true (s : string) : truthy s = true <-> s <> EmptyString.
Proof. destruct s; simpl; split; congruence. Qed.

Lemma lower_app (a b : string) :
  lower (a ++ b) = (lower a ++ lower b)%string.
Proof. induction a as [|c a IH]; simpl; [reflexivity | now rewrite IH]. Qed.

Lemma truthy_lower (s : string) : truthy (lower s) = truthy s.
Proof. destruct s; reflexivity. Qed.

Lemma startswith_empty (s : string) : startswith s EmptyString = true.
Proof. destruct s; reflexivity. Qed.

Lemma startswith_spec (s p : string) :
  startswith s p = true <-> exists post, s = (p ++ post)%string.
Proof.
  revert s; induction p as [|b p IH]; intros s; simpl.
  - split; [intros _; now exists s | intros _; reflexivity].
  - destruct s as [|a s].
    + split; [discriminate | intros [post H]; discriminate].
    + rewrite andb_true_iff, Ascii.eqb_eq, IH. split.
      * intros [-> [post ->]]. now exists post.
      * intros [post H]. injection H as -> ->. split; [reflexivity|now exists post].
Qed.

Lemma contains_spec (sub s : string) :
  contains sub s = true <-> is_substring sub s.
Proof.
  unfold is_substring. induction s as [|c s IH].
  - simpl. rewrite orb_false_r, startswith_spec. split.
    + intros [post H]. exists EmptyString, post. exact H.
    + intros [pre [post H]]. destruct pre; [now exists post | discriminate].
  - cbn [contains]. rewrite orb_true_iff, startswith_spec, IH. split.
    + intros [[post H] | [pre [post H]]].
      * exists EmptyString, post. exact H.
      * exists (String c pre), post. simpl. now rewrite H.
    + intros [pre [post H]]. destruct pre as [|d pre].
      * left. now exists post.
      * right. simpl in H. injection H as _ H. now exists pre, post.
Qed.

Lemma contains_empty (s : string) : contains EmptyString s = true.
Proof. destruct s; reflexivity. Qed.

Lemma contains_in_empty (sub : string) :
  truthy sub = true -> contains sub EmptyString = false.
Proof. destruct sub; simpl; [discriminate | reflexivity]. Qed.

(** *** Stripping *)

Lemma lstrip_leading (s : string) : leading_ws (lstrip s) = false.
Proof.
  induction s as [|c s IH]; simpl; [reflexivity|].
  destruct (isspace c) eqn:E; [exact IH | simpl; exact E].
Qed.

Lemma rstrip_trailing (s : string) : trailing_ws (rstrip s) = false.
Proof.
  induction s as [|c s IH]; simpl; [reflexivity|].
  destruct (rstrip s) as [|d r] eqn:E.
  - destruct (isspace c) eqn:Ec; simpl; [reflexivity | exact Ec].
  - exact IH.
Qed.

Lemma rstrip_leading (s : string) :
  leading_ws s = false -> leading_ws (rstrip s) = false.
Proof.
  destruct s as [|c s]; simpl; [reflexivity|]. intros Hc.
  destruct (rstrip s); [rewrite Hc|]; simpl; exact Hc.
Qed.

Lemma trimmed_strip (s : string) : trimmed (strip s) = true.
Proof.
  unfold trimmed, strip.
  now rewrite rstrip_leading, rstrip_trailing by apply lstrip_leading.
Qed.

Lemma lstrip_id (s : string) : leading_ws s = false -> lstrip s = s.
Proof. destruct s as [|c s]; simpl; [reflexivity | now intros ->]. Qed.

Lemma rstrip_cons (c : ascii) (r : string) :
  rstrip (String c r)
  = match rstrip r with
    | EmptyString => if isspace c then EmptyString else chr c
    | String _ _ as r' => String c r'
    end.
Proof. reflexivity. Qed.

Lemma rstrip_id (s : string) : trailing_ws s = false -> rstrip s = s.
Proof.
  induction s as [|c s IH]; [reflexivity|]. intros H.
  destruct s as [|d s].
  - simpl in *. now rewrite H.
  - rewrite rstrip_cons, (IH H). reflexivity.
Qed.

Lemma strip_trimmed (s : string) : trimmed s = true -> strip s = s.
Proof.
  unfold trimmed, strip. rewrite andb_true_iff, !negb_true_iff.
  intros [H1 H2]. rewrite (lstrip_id _ H1). now apply rstrip_id.
Qed.

Lemma strip_strip (s : string) : strip (strip s) = strip s.
Proof. apply strip_trimmed, trimmed_strip. Qed.

Lemma lstrip_blank (s : string) : blank s = true -> lstrip s = EmptyString.
Proof.
  induction s as [|c s IH]; simpl; [reflexivity|].
  rewrite andb_true_iff. intros [-> H]. now apply IH.
Qed.

Lemma strip_blank (s : string) : blank s = true -> strip s = EmptyString.
Proof. intros H. unfold strip. now rewrite lstrip_blank. Qed.

Lemma rstrip_head (c : ascii) (s : string) :
  isspace c = false -> exists r, rstrip (String c s) = String c r.
Proof.
  intros Hc. simpl. destruct (rstrip s) as [|d r].
  - rewrite Hc. now exists EmptyString.
  - now exists (String d r).
Qed.

Lemma lstrip_not_blank (s : string) :
  blank s = false ->
  exists c r, lstrip s = String c r /\ isspace c = false.
Proof.
  induction s as [|c s IH]; simpl; [discriminate|].
  destruct (isspace c) eqn:E; simpl.
  - exact IH.
  - intros _. now exists c, s.
Qed.

Lemma strip_not_blank (s : string) :
  blank s = false -> truthy (strip s) = true.
Proof.
  intros H. destruct (lstrip_not_blank s H) as [c [r [E Hc]]].
  unfold strip. rewrite E. destruct (rstrip_head c r Hc) as [r' ->].
  reflexivity.
Qed.

Lemma truthy_strip (s : string) : truthy (strip s) = negb (blank s).
Proof.
  destruct (blank s) eqn:E; simpl.
  - now rewrite strip_blank.
  - now apply strip_not_blank.
Qed.

(** *** Splitting and joining *)

Lemma char_in_app (c : ascii) (a b : string) :
  char_in c (a ++ b) = char_in c a || char_in c b.
Proof.
  induction a as [|d a IH]; simpl; [reflexivity|].
  now rewrite IH, orb_assoc.
Qed.

Lemma split_without (sep : ascii) (a : string) :
  char_in sep a = false -> split sep a = [a].
Proof.
  induction a as [|c a IH]; simpl; [reflexivity|].
  rewrite orb_false_iff. intros [-> H]. now rewrite IH.
Qed.

Lemma split_app (sep : ascii) (a b : string) :
  char_in sep a = false ->
  split sep (a ++ String sep b) = a :: split sep b.
Proof.
  induction a as [|c a IH]; simpl.
  - intros _. now rewrite Ascii.eqb_refl.
  - rewrite orb_false_iff. intros [-> H]. now rewrite IH.
Qed.

Lemma split_join (sep : ascii) (entries : list string) :
  entries <> [] ->
  Forall (fun e => char_in sep e = false) entries ->
  split sep (join (chr sep) entries) = entries.
Proof.
  induction entries as [|e rest IH]; [congruence|]. intros _ H.
  inversion H as [|? ? He Hrest]; subst.
  destruct rest as [|e' rest].
  - simpl. now apply split_without.
  - cbn [join]. unfold chr at 1. cbn [append].
    rewrite split_app by exact He. f_equal. apply IH; [discriminate | exact Hrest].
Qed.

Lemma char_in_join_sep (sep : ascii) (entries : list string) :
  2 <= List.length entries -> char_in sep (join (chr sep) entries) = true.
Proof.
  destruct entries as [|a [|b rest]]; simpl; try lia. intros _.
  rewrite char_in_app. simpl. rewrite Ascii.eqb_refl. apply orb_true_r.
Qed.

Lemma char_in_join_other (c sep : ascii) (entries : list string) :
  Ascii.eqb sep c = false ->
  Forall (fun e => char_in c e = false) entries ->
  char_in c (join (chr sep) entries) = false.
Proof.
  intros Hc. induction entries as [|e rest IH]; intros H; [reflexivity|].
  inversion H as [|? ? He Hrest]; subst.
  destruct rest as [|e' rest]; [exact He|].
  cbn [join]. rewrite char_in_app, He. unfold chr at 1. cbn [append char_in].
  rewrite Hc. simpl. now apply IH.
Qed.

Lemma same_list_eq (a b : list string) : same_list a b = true <-> a = b.
Proof.
  revert b; induction a as [|x a IH]; intros [|y b]; simpl;
    try (split; congruence).
  rewrite andb_true_iff, String.eqb_eq, IH. split.
  - now intros [-> ->].
  - intros H. injection H as -> ->. now split.
Qed.

End StrFacts.

(** ** Computations *)

Lemma value_bind {A B : Type} (m : M A) (f : A -> M B) (past : trace) :
  value (bind m f) past = value (f (value m past)) (past ++ events m past).
Proof.
  unfold value, events, bind. destruct (m past) as [a e1]. simpl.
  now destruct (f a (past ++ e1)).
Qed.

Lemma events_bind {A B : Type} (m : M A) (f : A -> M B) (past : trace) :
  events (bind m f) past
  = events m past ++ events (f (value m past)) (past ++ events m past).
Proof.
  unfold value, events, bind. destruct (m past) as [a e1]. simpl.
  now destruct (f a (past ++ e1)).
Qed.

Lemma events_run {A : Type} (m : M A) (past : trace) (r : A * list event) :
  m past = r -> events m past = snd r.
Proof. now intros <-. Qed.

Lemma run_eq {A : Type} (m : M A) (past : trace) :
  m past = (value m past, events m past).
Proof. unfold value, events. now destruct (m past). Qed.

(** ** [parse_urls] *)

Section ParseUrls.

Context {json : JsonLib}.
Import Str StrFacts.

Lemma char_in_truthy (c : ascii) (s : string) :
  char_in c s = true -> truthy s = true.
Proof. destruct s; simpl; [discriminate | reflexivity]. Qed.

Lemma startswith_truthy (s p : string) :
  truthy p = true -> startswith s p = true -> truthy s = true.
Proof. destruct p; [discriminate|]. destruct s; simpl; [discriminate | reflexivity]. Qed.

(** What [parse_urls] returns, branch by branch. *)
Lemma parse_urls_value (raw : string) (past : trace) :
  value (parse_urls raw) past
  = if negb (truthy raw) then []
    else if reads_as_json raw
         then match json_urls raw with
              | Some urls => urls
              | None => []
              end
         else match split_parts [LF; ","%char] raw with
              | [] => [raw]
              | p :: parts => p :: parts
              end.
Proof.
  unfold parse_urls, reads_as_json.
  remember (split_parts [LF; ","%char] raw) as parts eqn:E. clear E.
  destruct (negb (truthy raw)); [reflexivity|].
  rewrite value_bind.
  destruct (startswith raw "["); simpl.
  - destruct (json_urls raw) as [urls|]; [reflexivity|].
    rewrite value_bind. cbn. now destruct parts.
  - cbn. now destruct parts.
Qed.

(** The only event of [parse_urls] is the warning of line 38. *)
Lemma parse_urls_events (raw : string) (past : trace) :
  events (parse_urls raw) past = []
  \/ events (parse_urls raw) past
     = [Log WARNING
          "Failed to parse TARGET_URLS as JSON; will try splitting text."].
Proof.
  unfold parse_urls.
  remember (split_parts [LF; ","%char] raw) as parts eqn:E. clear E.
  destruct (negb (truthy raw)); [now left|].
  rewrite events_bind.
  destruct (startswith raw "["); [destruct (json_urls raw)|];
    cbn; destruct parts; cbn; auto.
Qed.

Lemma stripped_strings_strs (entries : list string) :
  stripped_strings (map PyStr entries) = trimmed_nonempty entries.
Proof.
  unfold trimmed_nonempty. induction entries as [|e rest IH]; [reflexivity|].
  simpl. rewrite IH. now destruct (truthy (strip e)).
Qed.

Lemma trimmed_nonempty_exists (entries : list string) :
  Exists (fun e => blank e = false) entries ->
  exists p parts, trimmed_nonempty entries = p :: parts.
Proof.
  unfold trimmed_nonempty. induction 1 as [e rest H | e rest _ IH]; simpl.
  - rewrite truthy_strip, H. simpl. eauto.
  - destruct (truthy (strip e)); eauto.
Qed.

Lemma in_stripped_strings (e : string) (items : list pyvalue) :
  In e (stripped_strings items) ->
  exists s, e = strip s /\ truthy e = true.
Proof.
  unfold stripped_strings. rewrite in_flat_map. intros [u [_ H]].
  destruct u; try contradiction.
  destruct (truthy (strip s)) eqn:E; [|contradiction].
  destruct H as [<-|[]]. now exists s.
Qed.

Lemma in_split_parts (e : string) (seps : list ascii) (raw : string) :
  In e (split_parts seps raw) ->
  exists s, e = strip s /\ truthy e = true.
Proof.
  induction seps as [|sep seps IH]; simpl; [contradiction|].
  destruct (char_in sep raw); [|exact IH].
  rewrite filter_In, in_map_iff. intros [[s [<- _]] H]. now exists s.
Qed.

Lemma stripped_entry (e : string) :
  (exists s, e = strip s /\ truthy e = true) ->
  trimmed e = true /\ e <> EmptyString.
Proof.
  intros [s [-> H]]. split; [apply trimmed_strip | now apply truthy_true].
Qed.

End ParseUrls.

Section ParseUrlsClaims.

Context {json : JsonLib}.
Import Str StrFacts.

Lemma split_parts_lines (entries : list string) :
  Forall (fun e => char_in LF e = false) entries ->
  2 <= List.length entries ->
  split_parts [LF; ","%char] (join (chr LF) entries)
  = trimmed_nonempty entries.
Proof.
  intros Hfree Hlen. cbn [split_parts].
  rewrite char_in_join_sep by exact Hlen.
  rewrite split_join; [reflexivity | | exact Hfree].
  destruct entries; simpl in Hlen; [lia | discriminate].
Qed.

Lemma split_parts_commas (entries : list string) :
  Forall (fun e => char_in LF e = false) entries ->
  Forall (fun e => char_in ","%char e = false) entries ->
  2 <= List.length entries ->
  split_parts [LF; ","%char] (join (chr ","%char) entries)
  = trimmed_nonempty entries.
Proof.
  intros Hlf Hfree Hlen. cbn [split_parts].
  rewrite char_in_join_other by (reflexivity || exact Hlf).
  rewrite char_in_join_sep by exact Hlen.
  rewrite split_join; [reflexivity | | exact Hfree].
  destruct entries; simpl in Hlen; [lia | discriminate].
Qed.

(** C2, as the code has it: for a text that lists URLs as a JSON array of
    strings at its very start, as two or more lines, as comma-separated
    entries on a single line, or as one trimmed entry, and that (outside
    JSON) holds an entry that is not blank, [parse_urls] returns exactly the
    trimmed, non-empty entries in their original order. *)
Theorem parse_urls_listing (raw : string) (entries : list string)
    (past : trace) :
  url_listing raw entries ->
  value (parse_urls raw) past = trimmed_nonempty entries.
Proof.
  intros H. rewrite parse_urls_value.
  destruct H as [raw entries Hstart Hjson | entries Hj Hfree Hlen Hsome
                | entries Hj Hlf Hfree Hlen Hsome | raw Hj Hlf Hcomma Htrim Hne].
  - rewrite (startswith_truthy raw "[" eq_refl Hstart). simpl.
    unfold reads_as_json, json_urls. rewrite Hstart, Hjson. simpl.
    apply stripped_strings_strs.
  - rewrite (char_in_truthy LF) by (now apply char_in_join_sep).
    cbn [negb]. rewrite Hj, split_parts_lines by assumption.
    now destruct (trimmed_nonempty_exists entries Hsome) as [p [parts ->]].
  - change ","%string with (chr ","%char) in *.
    rewrite (char_in_truthy ","%char) by (now apply char_in_join_sep).
    cbn [negb]. rewrite Hj, split_parts_commas by assumption.
    now destruct (trimmed_nonempty_exists entries Hsome) as [p [parts ->]].
  - rewrite Hne, Hj. simpl. rewrite Hlf, Hcomma.
    unfold trimmed_nonempty. simpl.
    now rewrite (strip_trimmed raw Htrim), Hne.
Qed.



End ParseUrlsClaims.

(** ** [page_contains_text] *)

Section PageContainsText.

Context {bs4 : HtmlLib}.
Import Str StrFacts.

(** The text searched is the searchable text of the specification. *)
Lemma page_contains_text_haystack (html text css_selector : string) :
  page_contains_text html text css_selector
  = contains (lower text) (lower (searchable_text html css_selector)).
Proof. unfold page_contains_text, searchable_text. now destruct css_selector. Qed.

(** C1, as the code has it: when a non-empty selector matches no element
    and the search text is not empty, [page_contains_text] returns false,
    whatever the document holds. *)
Theorem no_match_no_fallback (html text css_selector : string) :
  css_selector <> EmptyString ->
  select (BeautifulSoup html) css_selector = [] ->
  text <> EmptyString ->
  page_contains_text html text css_selector = false.
Proof.
  intros Hsel Hnone Htext. unfold page_contains_text.
  apply truthy_true in Hsel. rewrite Hsel, Hnone. simpl.
  apply contains_in_empty. rewrite truthy_lower. now apply truthy_true.
Qed.

(** C6: [page_contains_text] returns true exactly when the lowercased
    search text occurs in the lowercased searchable text; so with search
    text SOLD OUT it returns true for a document whose visible text holds
    Sold Out anywhere (no selector given), and under a selector when the
    text selected does. *)
Theorem case_insensitive_substring :
  (forall html text css_selector : string,
     page_contains_text html text css_selector = true
     <-> is_substring (lower text)
           (lower (searchable_text html css_selector)))
  /\ (forall html : string,
        is_substring "Sold Out" (get_text (BeautifulSoup html)) ->
        page_contains_text html "SOLD OUT" EmptyString = true)
  /\ (forall html css_selector : string,
        is_substring "Sold Out" (searchable_text html css_selector) ->
        page_contains_text html "SOLD OUT" css_selector = true).
Proof.
  assert (Hiff : forall html text css_selector : string,
     page_contains_text html text css_selector = true
     <-> is_substring (lower text)
           (lower (searchable_text html css_selector))).
  { intros. rewrite page_contains_text_haystack. apply contains_spec. }
  assert (Hsold : forall html css_selector : string,
        is_substring "Sold Out" (searchable_text html css_selector) ->
        page_contains_text html "SOLD OUT" css_selector = true).
  { intros html sel [pre [post H]]. apply Hiff. rewrite H.
    exists (lower pre), (lower post). now rewrite !lower_app. }
  split; [exact Hiff | split; [|exact Hsold]].
  intros html H. now apply Hsold.
Qed.

(** The empty search text is found in whatever text is searched. *)
Lemma empty_text_found (html css_selector : string) :
  page_contains_text html EmptyString css_selector = true.
Proof. rewrite page_contains_text_haystack. apply contains_empty. Qed.

(** C10, as the code has it: with the empty search text
    [page_contains_text] returns true for every document and every selector
    the engine accepts, one that matches nothing included, and when no
    selector is given. *)
Theorem empty_search_text_matches_accepted {syntax : SelectorSyntax}
    (html css_selector : string) :
  css_selector = EmptyString \/ compiles css_selector = true ->
  page_contains_text_or_raise html EmptyString css_selector = Some true.
Proof.
  intros H. unfold page_contains_text_or_raise.
  replace (truthy css_selector && negb (compiles css_selector)) with false.
  - now rewrite empty_text_found.
  - destruct H as [-> | ->]; [reflexivity | now rewrite andb_false_r].
Qed.

End PageContainsText.

(** ** [check_urls] *)

Lemma partition_length (l : list (string * MatchOutcome)) :
  List.length (hits_of l) + List.length (misses_of l) = List.length l.
Proof.
  unfold hits_of, misses_of. rewrite !length_map.
  induction l as [|e l IH]; simpl; [reflexivity|].
  destruct (is_hit (snd e)); simpl; lia.
Qed.

Lemma append_length (a b : string) :
  String.length (a ++ b) = String.length a + String.length b.
Proof. induction a as [|c a IH]; simpl; [reflexivity | now rewrite IH]. Qed.

Lemma tag_changes (url : string) : (url ++ " [fetch error]")%string <> url.
Proof.
  intros H. apply (f_equal String.length) in H.
  rewrite append_length in H. simpl in H. lia.
Qed.

Section CheckUrls.

Context {bs4 : HtmlLib} {net : Network}.
Variable env : Environment.
Variables search_text selector : string.

Lemma fetch_html_run (url : string) (t : Z) (past : trace) :
  fetch_html url t past
  = match http_get (past ++ [HttpGet url t]) url t with
    | Body text => (Some text, [HttpGet url t])
    | RequestError e =>
        (None,
         [HttpGet url t; Log ERROR ("Error fetching URL " ++ url ++ ": " ++ e)])
    end.
Proof.
  unfold fetch_html, bind, emit, history, log, ret. cbn [fst snd app].
  rewrite app_nil_r. now destruct (http_get (past ++ [HttpGet url t]) url t).
Qed.

Lemma visit_run (url : string) (past : trace) :
  visit env url search_text selector past
  = let line :=
      Log INFO ("Checking " ++ url ++ " for text '" ++ search_text ++ "' ...") in
    let f := fetch_html url (TIMEOUT env) (past ++ [line]) in
    (match fst f with
     | None => fetch_error
     | Some html =>
         if page_contains_text html search_text selector then hit else miss
     end,
     line :: snd f ++ [Sleep (REQUEST_DELAY_SEC env)]).
Proof.
  unfold visit, bind, log, emit, ret. cbn [fst snd app].
  destruct (fetch_html url (TIMEOUT env) _) as [html ef]. reflexivity.
Qed.

Lemma check_urls_from_step (url : string) (rest hits misses : list string)
    (past : trace) :
  check_urls_from env (url :: rest) search_text selector hits misses past
  = let o := value (visit env url search_text selector) past in
    let ev := events (visit env url search_text selector) past in
    let r := check_urls_from env rest search_text selector
               (hits ++ hit_entry url o) (misses ++ miss_entry url o)
               (past ++ ev) in
    (fst r, ev ++ snd r).
Proof.
  cbn [check_urls_from]. unfold visit, value, events, bind, log, emit, ret.
  cbn [fst snd].
  destruct (fetch_html url (TIMEOUT env) _) as [html ef].
  cbn [fst snd app].
  destruct html as [html|];
    [destruct (page_contains_text html search_text selector)|];
    cbn [hit_entry miss_entry hits_of misses_of filter map is_hit snd fst
         negb display];
    cbv beta iota; rewrite <- ?app_assoc; cbn [app]; rewrite ?app_nil_r;
    match goal with
    | |- context [check_urls_from ?e ?r ?t ?s ?h ?m ?p] =>
        destruct (check_urls_from e r t s h m p) as [res evs]
    end; cbn [fst snd]; rewrite <- ?app_assoc; reflexivity.
Qed.

Lemma outcomes_step (url : string) (rest : list string) (past : trace) :
  outcomes env (url :: rest) search_text selector past
  = let o := value (visit env url search_text selector) past in
    let ev := events (visit env url search_text selector) past in
    let r := outcomes env rest search_text selector (past ++ ev) in
    (o :: fst r, ev ++ snd r).
Proof.
  cbn [outcomes]. unfold bind, ret at 1.
  rewrite (run_eq (visit env url search_text selector) past). cbn zeta.
  cbv beta iota.
  destruct (outcomes env rest search_text selector _) as [os evs].
  cbn [fst snd]. now rewrite app_nil_r.
Qed.

(** The loop is the classification: it returns the hits and the displayed
    non-hits of the outcomes, and does what the visits do. *)
Lemma check_urls_from_outcomes (urls : list string) :
  forall (hits misses : list string) (past : trace),
    check_urls_from env urls search_text selector hits misses past
    = let r := outcomes env urls search_text selector past in
      ((hits ++ hits_of (combine urls (fst r)),
        misses ++ misses_of (combine urls (fst r))),
       snd r).
Proof.
  induction urls as [|url rest IH]; intros hits misses past.
  - cbn. now rewrite !app_nil_r.
  - rewrite check_urls_from_step, outcomes_step. cbv zeta.
    rewrite IH. cbv zeta. cbn [fst snd combine].
    unfold hit_entry, miss_entry, hits_of, misses_of.
    cbn [filter snd fst].
    destruct (is_hit (value (visit env url search_text selector) past));
      cbn [negb map app]; rewrite <- ?app_assoc; reflexivity.
Qed.

Lemma outcomes_length (urls : list string) :
  forall past : trace,
    List.length (value (outcomes env urls search_text selector) past)
    = List.length urls.
Proof.
  induction urls as [|url rest IH]; intros past; [reflexivity|].
  unfold value. rewrite outcomes_step. cbv zeta. cbn [fst length].
  f_equal. apply IH.
Qed.

(** The loop talks to no mail relay. *)
Lemma outcomes_no_smtp (urls : list string) :
  forall past : trace,
    smtp_calls (events (outcomes env urls search_text selector) past) = [].
Proof.
  induction urls as [|url rest IH]; intros past; [reflexivity|].
  unfold events. rewrite outcomes_step. cbv zeta. cbn [snd].
  unfold smtp_calls. rewrite filter_app. fold (smtp_calls).
  unfold events in IH. rewrite IH, app_nil_r.
  unfold events. rewrite visit_run. cbv zeta. rewrite fetch_html_run.
  cbn [snd].
  match goal with
  | |- context [http_get ?h ?u ?t] => destruct (http_get h u t)
  end; reflexivity.
Qed.

(** When the requests for the listed URLs fail, every outcome is a fetch
    error. *)
Lemma outcomes_all_fail (urls : list string) :
  (forall (h : trace) (url : string),
      In url urls ->
      exists reason, http_get h url (TIMEOUT env) = RequestError reason) ->
  forall past : trace,
    Forall (fun o => o = fetch_error)
      (value (outcomes env urls search_text selector) past).
Proof.
  induction urls as [|url rest IH]; intros Hfail past; [constructor|].
  unfold value. rewrite outcomes_step. cbv zeta. cbn [fst].
  constructor.
  - unfold value. rewrite visit_run. cbv zeta. rewrite fetch_html_run.
    match goal with
    | |- context [http_get ?h ?u ?t] =>
        destruct (Hfail h u (or_introl eq_refl)) as [reason ->]
    end. reflexivity.
  - apply IH. intros h u Hu. apply Hfail. now right.
Qed.

Lemma hits_of_errors (urls : list string) (os : list MatchOutcome) :
  Forall (fun o => o = fetch_error) os -> hits_of (combine urls os) = [].
Proof.
  intros H. revert urls. induction H as [|o os -> _ IH]; intros [|u urls];
    try reflexivity.
  unfold hits_of. cbn [combine filter snd is_hit]. apply IH.
Qed.

(** C4: [check_urls] gives every input URL exactly one entry, in exactly one
    of the two lists: the hits are the URLs whose outcome is a hit and the
    misses the displayed other ones, both in input order; the two lengths
    add up to the number of URLs; and a URL whose fetch failed stands in the
    misses with the tag appended, which no plain URL entry equals. *)
Theorem check_urls_partition (urls : list string) (past : trace) :
  let os := value (outcomes env urls search_text selector) past in
  let found := value (check_urls env urls search_text selector) past in
  List.length os = List.length urls
  /\ fst found = hits_of (combine urls os)
  /\ snd found = misses_of (combine urls os)
  /\ List.length (fst found) + List.length (snd found) = List.length urls
  /\ (forall (i : nat) (url : string),
        nth_error urls i = Some url ->
        nth_error os i = Some fetch_error ->
        In (url ++ " [fetch error]")%string (snd found))
  /\ (forall url : string,
        display (url, fetch_error) = (url ++ " [fetch error]")%string
        /\ display (url, fetch_error) <> display (url, miss)).
Proof.
  intros os found.
  assert (Hlen : List.length os = List.length urls) by apply outcomes_length.
  assert (Hfound : found = (hits_of (combine urls os),
                            misses_of (combine urls os))).
  { unfold found, value, check_urls. rewrite check_urls_from_outcomes.
    reflexivity. }
  rewrite Hfound. cbn [fst snd].
  repeat split; try assumption.
  - rewrite partition_length, length_combine, Hlen. apply Nat.min_id.
  - intros i url Hu Ho. unfold misses_of.
    apply (in_map display _ (url, fetch_error)).
    apply filter_In. split; [|reflexivity].
    clear Hfound found Hlen. revert i Hu Ho. generalize os.
    induction urls as [|u rest IH]; intros [|o os'] [|i]; simpl;
      try discriminate.
    + intros [= ->] [= ->]. now left.
    + intros Hu Ho. right. now apply (IH os' i).
  - cbn. apply tag_changes.
Qed.

End CheckUrls.

(** ** [send_email] *)

Section SendEmail.

Context {net : Network}.
Variable env : Environment.

Lemma send_email_incomplete (subject body : string) (past : trace) :
  smtp_incomplete env ->
  send_email env subject body past
  = (false, [Log ERROR "SMTP credentials not fully configured."]).
Proof.
  intros H. unfold send_email.
  replace (forallb _ _) with false; [reflexivity|].
  symmetry. cbn [forallb].
  destruct H as [-> | [-> | [-> | ->]]]; cbn;
    rewrite ?andb_false_r; reflexivity.
Qed.

(** What [send_email] does, whatever the settings. *)
Lemma send_email_events (subject body : string) (past : trace) :
  events (send_email env subject body) past
  = [Log ERROR "SMTP credentials not fully configured."]
  \/ exists (o : smtp_outcome) (line : event),
      is_smtp line = false
      /\ events (send_email env subject body) past
         = smtp_events (the (SMTP_SERVER env)) (SMTP_PORT env)
             (the (SMTP_USER env)) (the (SMTP_PASS env))
             {| msg_From := the (SMTP_USER env); msg_To := RECIPIENT env;
                msg_Subject := subject; msg_content := body |} o
           ++ [line].
Proof.
  unfold send_email. destruct (negb (forallb _ _)); [now left|]. right.
  unfold events, bind, history, log, emit, ret. cbn [fst snd app].
  rewrite app_nil_r.
  match goal with
  | |- context [smtp_session ?p ?a ?b ?c ?d ?m] =>
      exists (smtp_session p a b c d m);
      destruct (smtp_session p a b c d m)
  end; cbn [smtp_error fst snd]; eexists; (split; [|reflexivity]); reflexivity.
Qed.

Lemma send_email_at_most_one (subject body : string) (past : trace) :
  emails_sent (events (send_email env subject body) past) <= 1.
Proof.
  destruct (send_email_events subject body past) as [-> | [o [line [Hl ->]]]].
  - cbn. lia.
  - unfold emails_sent. rewrite filter_app, length_app.
    destruct line; try discriminate;
      destruct o as [?|?|? []|? []|? []|?|]; cbn; lia.
Qed.

Lemma send_email_message (subject body : string) (past : trace)
    (m : EmailMessage) :
  In (SmtpSendMessage m) (events (send_email env subject body) past) ->
  msg_Subject m = subject /\ msg_content m = body
  /\ msg_To m = RECIPIENT env.
Proof.
  destruct (send_email_events subject body past) as [-> | [o [line [Hl ->]]]].
  - intros [H|[]]. discriminate.
  - rewrite in_app_iff. intros [H | [H | []]];
      [|rewrite H in Hl; discriminate].
    destruct o as [?|?|? []|? []|? []|?|]; cbn in H;
      repeat (destruct H as [H|H]; [try discriminate|]); try contradiction;
      injection H as <-; auto.
Qed.

End SendEmail.

(** ** [main] *)

Section Main.

Context {json : JsonLib} {bs4 : HtmlLib} {net : Network}.
Variable env : Environment.

(** The run, step by step. *)
Lemma main_run (past : trace) :
  main env past
  = let urls := value (parse_urls (_TARGET_URLS_RAW env)) past in
    let e1 := events (parse_urls (_TARGET_URLS_RAW env)) past in
    match urls with
    | [] =>
        (tt, e1 ++ [Log ERROR
                      "No TARGET_URLS configured. Set the TARGET_URLS env var."])
    | _ :: _ =>
        let found :=
          value (check_urls env urls (SEARCH_TEXT env) (CSS_SELECTOR env))
            (past ++ e1) in
        let e2 :=
          events (check_urls env urls (SEARCH_TEXT env) (CSS_SELECTOR env))
            (past ++ e1) in
        let line := done_line (fst found) (snd found) in
        match fst found with
        | [] =>
            (tt, e1 ++ e2
                 ++ [line; Log INFO "No matches found. No email sent."])
        | _ :: _ =>
            (tt, e1 ++ e2 ++ line
                 :: events
                      (send_email env (subject env (fst found) urls)
                         (Str.join (Str.chr Str.LF)
                            (body_lines env (fst found) (snd found))))
                      (past ++ e1 ++ e2 ++ [line]))
        end
    end.
Proof.
  unfold main. unfold bind at 1.
  rewrite (run_eq (parse_urls (_TARGET_URLS_RAW env)) past). cbv zeta.
  destruct (value (parse_urls (_TARGET_URLS_RAW env)) past) as [|u urls].
  - reflexivity.
  - unfold bind at 1.
    rewrite (run_eq (check_urls env (u :: urls) (SEARCH_TEXT env)
                       (CSS_SELECTOR env))).
    destruct (value (check_urls env (u :: urls) (SEARCH_TEXT env)
                       (CSS_SELECTOR env)) _) as [hits misses].
    cbn [fst snd]. unfold bind at 1. unfold log, emit at 1.
    destruct hits as [|h hits].
    + unfold emit. reflexivity.
    + unfold bind, ret.
      rewrite <- !app_assoc.
      match goal with
      | |- context [send_email ?e ?s ?b ?p] =>
          rewrite (run_eq (send_email e s b) p)
      end.
      cbn [fst snd app]. now rewrite app_nil_r.
Qed.

Lemma emails_sent_app (a b : list event) :
  emails_sent (a ++ b) = emails_sent a + emails_sent b.
Proof. unfold emails_sent. now rewrite filter_app, length_app. Qed.

Lemma smtp_calls_app (a b : list event) :
  smtp_calls (a ++ b) = smtp_calls a ++ smtp_calls b.
Proof. apply filter_app. Qed.

Lemma no_smtp_no_email (evs : list event) :
  smtp_calls evs = [] -> emails_sent evs = 0.
Proof.
  unfold smtp_calls, emails_sent. induction evs as [|e evs IH]; [reflexivity|].
  simpl. destruct e; simpl; try discriminate; exact IH.
Qed.

Lemma parse_urls_no_smtp (raw : string) (past : trace) :
  smtp_calls (events (parse_urls raw) past) = [].
Proof. now destruct (parse_urls_events raw past) as [-> | ->]. Qed.

Lemma parse_urls_no_fetch (raw : string) (past : trace) :
  fetches (events (parse_urls raw) past) = [].
Proof. now destruct (parse_urls_events raw past) as [-> | ->]. Qed.

Lemma check_urls_run (urls : list string) (text sel : string) (past : trace) :
  check_urls env urls text sel past
  = let r := outcomes env urls text sel past in
    ((hits_of (combine urls (fst r)), misses_of (combine urls (fst r))),
     snd r).
Proof. unfold check_urls. now rewrite check_urls_from_outcomes. Qed.

Lemma check_urls_value (urls : list string) (text sel : string)
    (past : trace) :
  value (check_urls env urls text sel) past
  = (hits_of (combine urls (value (outcomes env urls text sel) past)),
     misses_of (combine urls (value (outcomes env urls text sel) past))).
Proof. unfold value at 1. now rewrite check_urls_run. Qed.

Lemma check_urls_lengths (urls : list string) (text sel : string)
    (past : trace) :
  List.length (fst (value (check_urls env urls text sel) past))
  + List.length (snd (value (check_urls env urls text sel) past))
  = List.length urls.
Proof.
  rewrite check_urls_value. cbn [fst snd].
  rewrite partition_length, length_combine, outcomes_length.
  apply Nat.min_id.
Qed.

Lemma check_urls_no_smtp (urls : list string) (text sel : string)
    (past : trace) :
  smtp_calls (events (check_urls env urls text sel) past) = [].
Proof.
  unfold events. rewrite check_urls_run. cbv zeta. cbn [snd].
  apply outcomes_no_smtp.
Qed.

Lemma hit_list_value (past : trace) :
  value (hit_list env) past
  = fst (value (check_urls env (value (parse_urls (_TARGET_URLS_RAW env)) past)
                  (SEARCH_TEXT env) (CSS_SELECTOR env))
           (past ++ events (parse_urls (_TARGET_URLS_RAW env)) past)).
Proof. unfold hit_list. now rewrite !value_bind. Qed.

(** Until [send_email] is called, the run has talked to no mail relay. *)
Lemma main_before_send (past : trace) :
  value (hit_list env) past = [] ->
  smtp_calls (events (main env) past) = [].
Proof.
  rewrite hit_list_value, (events_run _ _ _ (main_run past)). cbv zeta.
  destruct (value (parse_urls (_TARGET_URLS_RAW env)) past) as [|u urls].
  - intros _. cbn [snd]. now rewrite smtp_calls_app, parse_urls_no_smtp.
  - intros ->. cbn [snd].
    now rewrite !smtp_calls_app, parse_urls_no_smtp, check_urls_no_smtp.
Qed.

(** C5: a run sends at most one mail; it talks to the mail relay only when
    the hit list is not empty; and when all the configured URLs fail to
    fetch (the requests for the parsed URLs fail; or, said of the run
    itself, every outcome is a fetch error), the hit list is empty and no
    mail is sent. *)
Theorem at_most_one_email (past : trace) :
  let evs := events (main env) past in
  emails_sent evs <= 1
  /\ (value (hit_list env) past = [] ->
      smtp_calls evs = [] /\ emails_sent evs = 0)
  /\ (smtp_calls evs <> [] -> value (hit_list env) past <> [])
  /\ ((forall (h : trace) (url : string),
          In url (value (parse_urls (_TARGET_URLS_RAW env)) past) ->
          exists reason,
            http_get h url (TIMEOUT env) = RequestError reason) ->
      value (hit_list env) past = [] /\ emails_sent evs = 0)
  /\ (Forall (fun o => o = fetch_error) (value (run_outcomes env) past) ->
      value (hit_list env) past = [] /\ emails_sent evs = 0).
Proof.
  intros evs.
  assert (Hnone : value (hit_list env) past = [] ->
                  smtp_calls evs = [] /\ emails_sent evs = 0).
  { intros H. split; [|apply no_smtp_no_email]; now apply main_before_send. }
  assert (Herr : Forall (fun o => o = fetch_error)
                    (value (run_outcomes env) past) ->
                 value (hit_list env) past = [] /\ emails_sent evs = 0).
  { intros Hall.
    assert (Hhits : value (hit_list env) past = []).
    { rewrite hit_list_value, check_urls_value. cbn [fst].
      apply hits_of_errors. unfold run_outcomes in Hall.
      now rewrite value_bind in Hall. }
    split; [exact Hhits | now apply Hnone]. }
  split; [|split; [exact Hnone | split; [|split; [|exact Herr]]]].
  - destruct (value (hit_list env) past) as [|h hits] eqn:Hhits.
    + destruct (Hnone eq_refl) as [_ ->]. lia.
    + rewrite hit_list_value in Hhits. unfold evs.
      rewrite (events_run _ _ _ (main_run past)). cbv zeta.
      destruct (value (parse_urls (_TARGET_URLS_RAW env)) past) as [|u urls];
        [discriminate|].
      rewrite Hhits. cbn [snd].
      change (?a :: ?l) with ([a] ++ l) at 1.
      rewrite !emails_sent_app.
      rewrite (no_smtp_no_email _ (parse_urls_no_smtp _ _)).
      rewrite (no_smtp_no_email _ (check_urls_no_smtp _ _ _ _)).
      apply send_email_at_most_one.
  - intros Hcalls Hhits. apply Hcalls. now apply Hnone.
  - intros Hfail. apply Herr. unfold run_outcomes. rewrite value_bind.
    now apply outcomes_all_fail.
Qed.

(** C7: when an SMTP parameter is missing (server, user or password not set
    or empty, or a port of zero), [send_email] returns false after logging
    an error and makes no SMTP call; the run makes none either, and ends
    normally on that error line when there were hits. *)
Theorem incomplete_smtp_no_send (subj body : string) (past : trace) :
  smtp_incomplete env ->
  send_email env subj body past
  = (false, [Log ERROR "SMTP credentials not fully configured."])
  /\ smtp_calls (events (send_email env subj body) past) = []
  /\ smtp_calls (events (main env) past) = []
  /\ (value (hit_list env) past <> [] ->
      exists before,
        main env past
        = (tt, before ++ [Log ERROR "SMTP credentials not fully configured."])).
Proof.
  intros H.
  assert (Hsend : forall s b p,
             send_email env s b p
             = (false, [Log ERROR "SMTP credentials not fully configured."]))
    by (intros; now apply send_email_incomplete).
  split; [apply Hsend | split; [unfold events; now rewrite Hsend|]].
  rewrite hit_list_value, (events_run _ _ _ (main_run past)), main_run.
  cbv zeta.
  destruct (value (parse_urls (_TARGET_URLS_RAW env)) past) as [|u urls].
  - cbn [snd]. rewrite smtp_calls_app, parse_urls_no_smtp.
    split; [reflexivity|].
    intros Hne. exfalso. apply Hne. reflexivity.
  - destruct (fst (value (check_urls env (u :: urls) (SEARCH_TEXT env)
                           (CSS_SELECTOR env)) _)) as [|h hits] eqn:Hh.
    + cbn [snd].
      rewrite !smtp_calls_app, parse_urls_no_smtp, check_urls_no_smtp.
      split; [reflexivity | intros Hne; exfalso; now apply Hne].
    + assert (Hev : forall s b p,
                 events (send_email env s b) p
                 = [Log ERROR "SMTP credentials not fully configured."])
        by (intros; unfold events; now rewrite Hsend).
      rewrite !Hev. cbn [snd].
      change (?a :: ?l) with ([a] ++ l) at 1.
      rewrite !smtp_calls_app, parse_urls_no_smtp, check_urls_no_smtp.
      split; [reflexivity|]. intros _.
      match goal with
      | |- exists before, (tt, ?a ++ ?b ++ [?l; ?e]) = _ =>
          exists (a ++ b ++ [l])
      end.
      now rewrite <- !app_assoc.
Qed.

End Main.

Section Alert.

Context {json : JsonLib} {bs4 : HtmlLib} {net : Network}.
Variable env : Environment.

(** C8: when exactly one of the N parsed URLs is a hit, the remaining N-1
    are the misses (fetch errors tagged), and the run ends in the one call
    [send_email] with the subject naming the search text and 1/N, and the
    body listing the search text, the selector or N/A, the hit under
    Found on, and the misses, or (none), under Not found on; any message
    the run sends carries that subject and body. *)
Theorem one_hit_email (past : trace) (u : string) (misses : list string) :
  let urls := value (parse_urls (_TARGET_URLS_RAW env)) past in
  let e1 := events (parse_urls (_TARGET_URLS_RAW env)) past in
  let N := List.length urls in
  let the_subject :=
    ("[ALERT] Found '" ++ SEARCH_TEXT env ++ "' on 1/" ++ Str.of_nat N
     ++ " URL(s)")%string in
  let the_body :=
    Str.join (Str.chr Str.LF)
      ([("Search text: '" ++ SEARCH_TEXT env ++ "'")%string;
        ("CSS selector: '"
         ++ (if Str.truthy (CSS_SELECTOR env) then CSS_SELECTOR env
             else "N/A")
         ++ "'")%string;
        EmptyString;
        "Found on:";
        ("- " ++ u)%string;
        EmptyString;
        "Not found on:"]
       ++ match misses with
          | [] => ["- (none)"]
          | _ :: _ => map (fun m : string => ("- " ++ m)%string) misses
          end
       ++ [EmptyString; "Checked by monitor.py"]) in
  value (check_urls env urls (SEARCH_TEXT env) (CSS_SELECTOR env))
    (past ++ e1) = ([u], misses) ->
  List.length misses = N - 1
  /\ misses
     = misses_of
         (combine urls
            (value (outcomes env urls (SEARCH_TEXT env) (CSS_SELECTOR env))
               (past ++ e1)))
  /\ (exists before,
        smtp_calls before = []
        /\ events (main env) past
           = before
             ++ events (send_email env the_subject the_body) (past ++ before))
  /\ (forall m : EmailMessage,
        In (SmtpSendMessage m) (events (main env) past) ->
        msg_Subject m = the_subject /\ msg_content m = the_body).
Proof.
  intros urls e1 N the_subject the_body Hfound.
  pose proof (check_urls_lengths env urls (SEARCH_TEXT env)
                (CSS_SELECTOR env) (past ++ e1)) as Hlen.
  pose proof (check_urls_value env urls (SEARCH_TEXT env)
                (CSS_SELECTOR env) (past ++ e1)) as Hmiss.
  rewrite Hfound in Hlen, Hmiss. cbn [fst snd] in Hlen.
  apply (f_equal snd) in Hmiss. cbn [snd] in Hmiss.
  assert (Hrun : events (main env) past
                 = (e1 ++ events (check_urls env urls (SEARCH_TEXT env)
                                    (CSS_SELECTOR env)) (past ++ e1)
                       ++ [done_line [u] misses])
                   ++ events (send_email env the_subject the_body)
                        (past ++ e1 ++ events (check_urls env urls
                                    (SEARCH_TEXT env) (CSS_SELECTOR env))
                                    (past ++ e1)
                              ++ [done_line [u] misses])).
  { rewrite (events_run _ _ _ (main_run env past)). cbv zeta.
    fold urls e1. destruct urls as [|u0 urls0] eqn:Eu; [discriminate|].
    rewrite Hfound. cbn [fst snd]. now rewrite <- !app_assoc. }
  assert (Hquiet : smtp_calls
            (e1 ++ events (check_urls env urls (SEARCH_TEXT env)
                             (CSS_SELECTOR env)) (past ++ e1)
                ++ [done_line [u] misses]) = []).
  { unfold e1.
    now rewrite !smtp_calls_app, parse_urls_no_smtp, check_urls_no_smtp. }
  split; [simpl in Hlen; lia | split; [exact Hmiss | split]].
  - eexists. split; [exact Hquiet|]. rewrite Hrun.
    now rewrite <- !app_assoc.
  - intros m. rewrite Hrun, in_app_iff. intros [Hin | Hin].
    + exfalso.
      assert (In (SmtpSendMessage m) []) as [].
      rewrite <- Hquiet. apply filter_In. now split.
    + apply send_email_message in Hin. now destruct Hin as [? [? _]].
Qed.

(** C9: when TARGET_URLS is not set, empty or made of whitespace only, the
    parsed list is empty and the run stops after logging the error: no
    request is made and no mail is sent. *)
Theorem no_urls_no_activity (past : trace) :
  (env_TARGET_URLS env = None
   \/ exists s, env_TARGET_URLS env = Some s /\ Str.blank s = true) ->
  value (parse_urls (_TARGET_URLS_RAW env)) past = []
  /\ main env past
     = (tt, [Log ERROR
               "No TARGET_URLS configured. Set the TARGET_URLS env var."])
  /\ fetches (events (main env) past) = []
  /\ smtp_calls (events (main env) past) = []
  /\ emails_sent (events (main env) past) = 0.
Proof.
  intros H.
  assert (Hraw : _TARGET_URLS_RAW env = EmptyString).
  { unfold _TARGET_URLS_RAW. destruct H as [-> | [s [-> Hs]]];
      [reflexivity | now apply StrFacts.strip_blank]. }
  assert (Hmain : main env past
     = (tt, [Log ERROR
               "No TARGET_URLS configured. Set the TARGET_URLS env var."])).
  { rewrite main_run, Hraw. reflexivity. }
  split; [now rewrite Hraw|]. split; [exact Hmain|].
  unfold events. rewrite Hmain. repeat split.
Qed.

End Alert.

(** ** The program on concrete inputs *)

Module Scenarios.
Import Reference.

(** The end-to-end scenario of the specification: page a shows the text,
    page b does not; one mail goes out, its subject saying 1/2. *)
Example end_to_end :
  value (check_urls (bs4 := Html) (net := Shop) (settings (Some two_urls))
           ["https://a.test"; "https://b.test"] "SOLD OUT" EmptyString) []
  = (["https://a.test"], ["https://b.test"])
  /\ emails_sent
       (events (main (json := Json) (bs4 := Html) (net := Shop)
                  (settings (Some two_urls))) []) = 1.
Proof. split; vm_compute; reflexivity. Qed.

Example strip_example :
  Str.strip (String Str.LF "  https://a.test  ") = "https://a.test".
Proof. reflexivity. Qed.

(** C1 at a page whose text holds the words: a selector that matches
    nothing hides them. *)
Lemma no_match_no_fallback_witness :
  page_contains_text (bs4 := Html) sold_out_page "SOLD OUT" "div" = false
  /\ page_contains_text (bs4 := Html) sold_out_page "SOLD OUT" EmptyString
     = true.
Proof.
  split; [|reflexivity].
  apply (no_match_no_fallback (bs4 := Html) sold_out_page "SOLD OUT" "div");
    [discriminate | reflexivity | discriminate].
Defined.

(** C1 fails for the empty search text: the selector matches nothing, and
    the answer is true. *)
Lemma no_match_empty_text_counterexample :
  select (HtmlLib := Html) (BeautifulSoup sold_out_page) "div" = []
  /\ page_contains_text (bs4 := Html) sold_out_page EmptyString "div" = true.
Proof. split; reflexivity. Qed.

(** C10 with a selector that matches nothing. *)
Lemma empty_search_text_matches_accepted_witness :
  select (HtmlLib := Html) (BeautifulSoup sold_out_page) "div" = []
  /\ page_contains_text_or_raise (bs4 := Html) (syntax := Syntax)
       sold_out_page EmptyString "div" = Some true.
Proof.
  split; [reflexivity|].
  apply (empty_search_text_matches_accepted (bs4 := Html) (syntax := Syntax)
           sold_out_page "div").
  right. reflexivity.
Defined.

(** C10 fails for a selector with an unclosed bracket: [select] raises, and
    nothing is returned. *)
Lemma malformed_selector_counterexample :
  compiles (SelectorSyntax := Syntax) "p[" = false
  /\ page_contains_text_or_raise (bs4 := Html) (syntax := Syntax)
       sold_out_page EmptyString "p[" = None.
Proof. split; reflexivity. Qed.

(** C2 on a JSON array, on two lines and on one comma-separated line. *)
Lemma parse_urls_listing_witness :
  value (parse_urls (json := Json) json_urls_text) []
  = ["https://a.test"; "https://b.test"]
  /\ value (parse_urls (json := Json)
              (Str.join "," ["https://a.test"; " https://b.test"; " "])) []
     = ["https://a.test"; "https://b.test"]
  /\ value (parse_urls (json := Json)
              (Str.join (Str.chr Str.LF)
                 ["https://a.test,x"; EmptyString; "https://b.test"])) []
     = ["https://a.test,x"; "https://b.test"].
Proof.
  split; [|split].
  - apply (parse_urls_listing (json := Json) json_urls_text
             ["https://a.test"; " https://b.test "] []).
    apply listing_json; reflexivity.
  - apply (parse_urls_listing (json := Json) _
             ["https://a.test"; " https://b.test"; " "] []).
    apply listing_commas;
      [reflexivity | repeat constructor | repeat constructor
       | simpl; lia | apply Exists_cons_hd; reflexivity].
  - apply (parse_urls_listing (json := Json) _
             ["https://a.test,x"; EmptyString; "https://b.test"] []).
    apply listing_lines;
      [reflexivity | repeat constructor
       | simpl; lia | apply Exists_cons_hd; reflexivity].
Defined.

(** C2 fails for comma-separated entries with a line break between them:
    the text is split at the line break, and the comma stays. *)
Lemma parse_urls_broken_line_counterexample :
  value (parse_urls (json := Json) (Str.join "," broken_line)) []
  = ["https://a.test,"; "https://b.test"]
  /\ trimmed_nonempty broken_line = ["https://a.test"; "https://b.test"]
  /\ same_list (value (parse_urls (json := Json) (Str.join "," broken_line)) [])
       (trimmed_nonempty broken_line) = false.
Proof. repeat split. Qed.

(** Separators alone are kept as a URL. *)
Example parse_urls_only_commas :
  value (parse_urls (json := Json) ",,") [] = [",,"]
  /\ trimmed_nonempty (Str.split ","%char ",,") = [].
Proof. split; reflexivity. Qed.


(** Handed a text that starts with a space and has no separator, which the
    program never does, [parse_urls] returns it as it is. *)
Example parse_urls_keeps_whole_text :
  value (parse_urls (json := Json) " https://a.test") [] = [" https://a.test"]
  /\ Str.trimmed " https://a.test" = false.
Proof. split; reflexivity. Qed.

(** C4 on three URLs, the third of which cannot be fetched. *)
Lemma check_urls_partition_witness :
  In "https://c.test [fetch error]"
    (snd (value (check_urls (bs4 := Html) (net := Shop)
                   (settings (Some three_urls))
                   ["https://a.test"; "https://b.test"; "https://c.test"]
                   "SOLD OUT" EmptyString) [])).
Proof.
  pose proof (check_urls_partition (bs4 := Html) (net := Shop)
                (settings (Some three_urls)) "SOLD OUT" EmptyString
                ["https://a.test"; "https://b.test"; "https://c.test"] [])
    as H.
  cbv zeta in H. destruct H as [_ [_ [_ [_ [Htag _]]]]].
  apply (Htag 2 "https://c.test"); reflexivity.
Defined.

(** C5 when the two configured pages cannot be fetched, other pages of the
    same network being there. *)
Lemma at_most_one_email_witness :
  value (hit_list (json := Json) (bs4 := Html) (net := Shop)
           (settings (Some down_urls))) [] = []
  /\ emails_sent (events (main (json := Json) (bs4 := Html) (net := Shop)
                            (settings (Some down_urls))) []) = 0.
Proof.
  pose proof (at_most_one_email (json := Json) (bs4 := Html) (net := Shop)
                (settings (Some down_urls)) []) as H.
  cbv zeta in H. destruct H as [_ [_ [_ [Hfail _]]]].
  apply Hfail. intros h url Hin. exists "404 Client Error".
  destruct Hin as [<- | [<- | []]]; reflexivity.
Defined.

(** C6 on the page that shows Sold Out Today. *)
Lemma case_insensitive_substring_witness :
  page_contains_text (bs4 := Html) sold_out_page "SOLD OUT" EmptyString
  = true.
Proof.
  apply (proj1 (proj2 (case_insensitive_substring (bs4 := Html)))).
  exists "Widget ", " Today". reflexivity.
Defined.

(** C7 with no password set: a hit, and no SMTP call. *)
Lemma incomplete_smtp_no_send_witness :
  send_email (net := Shop) (no_password (Some two_urls)) "subject" "body" []
  = (false, [Log ERROR "SMTP credentials not fully configured."])
  /\ smtp_calls (events (main (json := Json) (bs4 := Html) (net := Shop)
                           (no_password (Some two_urls))) []) = [].
Proof.
  destruct (incomplete_smtp_no_send (json := Json) (bs4 := Html) (net := Shop)
              (no_password (Some two_urls)) "subject" "body" [])
    as [Hsend [_ [Hmain _]]].
  - right; right; right. reflexivity.
  - split; [exact Hsend | exact Hmain].
Defined.

(** C8 on the two pages: the mail sent says 1/2 and lists both URLs. *)
Lemma one_hit_email_witness :
  exists m : EmailMessage,
    In (SmtpSendMessage m)
      (events (main (json := Json) (bs4 := Html) (net := Shop)
                 (settings (Some two_urls))) [])
    /\ msg_Subject m = "[ALERT] Found 'SOLD OUT' on 1/2 URL(s)"
    /\ msg_content m
       = Str.join (Str.chr Str.LF)
           ["Search text: 'SOLD OUT'"; "CSS selector: 'N/A'"; EmptyString;
            "Found on:"; "- https://a.test"; EmptyString;
            "Not found on:"; "- https://b.test"; EmptyString;
            "Checked by monitor.py"].
Proof.
  pose proof (one_hit_email (json := Json) (bs4 := Html) (net := Shop)
                (settings (Some two_urls)) [] "https://a.test"
                ["https://b.test"]) as H.
  cbv zeta in H.
  destruct H as [_ [_ [_ Hsaid]]]; [vm_compute; reflexivity|].
  eexists. split; [|apply Hsaid];
    vm_compute; repeat (first [left; reflexivity | right]).
Defined.

(** C9 with a setting made of spaces and a line break. *)
Lemma no_urls_no_activity_witness :
  main (json := Json) (bs4 := Html) (net := Shop)
    (settings (Some (String Str.LF "   "))) []
  = (tt, [Log ERROR "No TARGET_URLS configured. Set the TARGET_URLS env var."]).
Proof.
  apply (no_urls_no_activity (json := Json) (bs4 := Html) (net := Shop)
           (settings (Some (String Str.LF "   "))) []).
  right. exists (String Str.LF "   "). split; reflexivity.
Defined.

End Scenarios.

(** * Further properties of the program *)

(** ** [parse_urls]: fallback and shape of the result *)

Section ParseUrlsMore.

Context {json : JsonLib}.
Import Str StrFacts.

Lemma parse_urls_events_exact (raw : string) (past : trace) :
  events (parse_urls raw) past
  = if truthy raw && startswith raw "["
       && match json_urls raw with
          | Some _ => false
          | None => true
          end
    then [Log WARNING
            "Failed to parse TARGET_URLS as JSON; will try splitting text."]
    else [].
Proof.
  unfold parse_urls.
  remember (split_parts [LF; ","%char] raw) as parts eqn:E. clear E.
  destruct (truthy raw); cbn [negb andb]; [|reflexivity].
  rewrite events_bind.
  destruct (startswith raw "["); [destruct (json_urls raw)|];
    cbn; destruct parts; reflexivity.
Qed.

(** X1: text that starts with a bracket but does not decode as JSON is not
    an error: [parse_urls] logs exactly one warning and answers as it does
    for plain text, from the separators; and that warning is logged in no
    other case. *)
Theorem parse_urls_json_fallback (raw : string) (past : trace) :
  (startswith raw "[" = true -> json_urls raw = None ->
   parse_urls raw past
   = (match split_parts [LF; ","%char] raw with
      | [] => [raw]
      | p :: parts => p :: parts
      end,
      [Log WARNING
         "Failed to parse TARGET_URLS as JSON; will try splitting text."]))
  /\ (events (parse_urls raw) past <> [] ->
      startswith raw "[" = true /\ json_urls raw = None).
Proof.
  split.
  - intros Hstart Hjson. rewrite run_eq.
    rewrite parse_urls_value, parse_urls_events_exact.
    unfold reads_as_json.
    rewrite (startswith_truthy raw "[" eq_refl Hstart), Hstart, Hjson.
    reflexivity.
  - rewrite parse_urls_events_exact.
    destruct (truthy raw); cbn [andb]; [|congruence].
    destruct (startswith raw "["); cbn [andb]; [|congruence].
    destruct (json_urls raw); [congruence | auto].
Qed.

(** X2: a non-empty text that is not answered from JSON always yields at
    least one URL, the text itself if nothing else: only the empty text and
    JSON can give the empty list. *)
Theorem parse_urls_text_not_empty (raw : string) (past : trace) :
  raw <> EmptyString ->
  reads_as_json raw = false ->
  exists (u : string) (rest : list string),
    value (parse_urls raw) past = u :: rest.
Proof.
  intros Hne Hj. rewrite parse_urls_value.
  apply truthy_true in Hne. rewrite Hne, Hj. cbn [negb].
  destruct (split_parts [LF; ","%char] raw) as [|p parts]; eauto.
Qed.

(** Every entry is the text itself or a piece stripped to something. *)
Lemma parse_urls_entry (raw : string) (past : trace) (e : string) :
  In e (value (parse_urls raw) past) ->
  (e = raw /\ truthy raw = true)
  \/ (exists s, e = strip s /\ truthy e = true).
Proof.
  rewrite parse_urls_value.
  destruct (truthy raw) eqn:Hne; cbn [negb]; [|contradiction].
  destruct (reads_as_json raw).
  - unfold json_urls. destruct (json_loads raw) as [arr|]; [|contradiction].
    destruct (py_iter arr) as [items|]; [|contradiction].
    intros H. right. now apply (in_stripped_strings e items).
  - destruct (split_parts [LF; ","%char] raw) as [|p parts] eqn:E; cbv iota.
    + intros [<-|[]]. now left.
    + rewrite <- E. intros H. right.
      now apply (in_split_parts e [LF; ","%char] raw).
Qed.

End ParseUrlsMore.

(** ** [check_urls]: requests, pauses and composition *)

Lemma actions_app (a b : list event) : actions (a ++ b) = actions a ++ actions b.
Proof. apply filter_app. Qed.

Lemma fetches_actions (evs : list event) : fetches (actions evs) = fetches evs.
Proof.
  unfold fetches, actions. induction evs as [|e evs IH]; [reflexivity|].
  destruct e; simpl; rewrite IH; reflexivity.
Qed.

Lemma fetches_paced (t : Z) (d : duration) (urls : list string) :
  fetches (paced_requests t d urls) = map (fun u => HttpGet u t) urls.
Proof.
  induction urls as [|u urls IH]; [reflexivity|].
  simpl. now rewrite <- IH.
Qed.

Lemma hits_of_app (a b : list (string * MatchOutcome)) :
  hits_of (a ++ b) = hits_of a ++ hits_of b.
Proof. unfold hits_of. now rewrite filter_app, map_app. Qed.

Lemma misses_of_app (a b : list (string * MatchOutcome)) :
  misses_of (a ++ b) = misses_of a ++ misses_of b.
Proof. unfold misses_of. now rewrite filter_app, map_app. Qed.

Section CheckUrlsMore.

Context {bs4 : HtmlLib} {net : Network}.
Variable env : Environment.
Variables search_text selector : string.

Lemma visit_actions (url : string) (past : trace) :
  actions (events (visit env url search_text selector) past)
  = [HttpGet url (TIMEOUT env); Sleep (REQUEST_DELAY_SEC env)].
Proof.
  unfold events. rewrite visit_run. cbv zeta. rewrite fetch_html_run.
  match goal with
  | |- context [http_get ?h ?u ?t] => destruct (http_get h u t)
  end; reflexivity.
Qed.

Lemma outcomes_actions (urls : list string) :
  forall past : trace,
    actions (events (outcomes env urls search_text selector) past)
    = paced_requests (TIMEOUT env) (REQUEST_DELAY_SEC env) urls.
Proof.
  induction urls as [|url rest IH]; intros past; [reflexivity|].
  unfold events. rewrite outcomes_step. cbv zeta. cbn [snd].
  rewrite actions_app. fold (events (visit env url search_text selector) past).
  rewrite visit_actions. unfold events in IH. now rewrite IH.
Qed.

Lemma check_urls_events (urls : list string) (past : trace) :
  events (check_urls env urls search_text selector) past
  = events (outcomes env urls search_text selector) past.
Proof. unfold events at 1. now rewrite check_urls_run. Qed.

(** X3: log lines apart, [check_urls] does one GET per URL, in the order of
    the list and with the configured timeout, a repeated URL being fetched
    again, and pauses for the configured delay after each of them, the last
    one and the failed ones included. *)
Theorem check_urls_paced (urls : list string) (past : trace) :
  actions (events (check_urls env urls search_text selector) past)
  = paced_requests (TIMEOUT env) (REQUEST_DELAY_SEC env) urls.
Proof. rewrite check_urls_events. apply outcomes_actions. Qed.

Lemma outcomes_app (a b : list string) :
  forall past : trace,
    outcomes env (a ++ b) search_text selector past
    = let ra := outcomes env a search_text selector past in
      let rb := outcomes env b search_text selector (past ++ snd ra) in
      (fst ra ++ fst rb, snd ra ++ snd rb).
Proof.
  induction a as [|url rest IH]; intros past.
  - cbn. rewrite app_nil_r. now destruct (outcomes env b _ _ past).
  - cbn [app]. rewrite !outcomes_step. cbv zeta. rewrite IH. cbv zeta.
    cbn [fst snd]. rewrite <- !app_assoc. reflexivity.
Qed.

Lemma combine_app {A B : Type} (a a' : list A) (b b' : list B) :
  List.length a = List.length b ->
  combine (a ++ a') (b ++ b') = combine a b ++ combine a' b'.
Proof.
  revert b; induction a as [|x a IH]; intros [|y b]; simpl;
    try discriminate; [reflexivity|].
  intros [= H]. now rewrite IH.
Qed.

(** X4: checking a list made of two parts is checking the first part and
    then the second: the hits, the misses and the events of the two passes
    follow one another, the second pass starting from what the first has
    done. *)
Theorem check_urls_app (a b : list string) (past : trace) :
  let ra := check_urls env a search_text selector past in
  let rb := check_urls env b search_text selector (past ++ snd ra) in
  check_urls env (a ++ b) search_text selector past
  = ((fst (fst ra) ++ fst (fst rb), snd (fst ra) ++ snd (fst rb)),
     snd ra ++ snd rb).
Proof.
  cbv zeta. rewrite !check_urls_run. cbv zeta. cbn [fst snd].
  rewrite outcomes_app. cbv zeta. cbn [fst snd].
  rewrite combine_app, hits_of_app, misses_of_app; [reflexivity|].
  symmetry. apply outcomes_length.
Qed.

End CheckUrlsMore.

Section EmptySearchText.

Context {bs4 : HtmlLib} {net : Network}.
Variable env : Environment.
Variable selector : string.

Lemma visit_empty_text (url : string) (past : trace) :
  value (visit env url EmptyString selector) past <> miss.
Proof.
  unfold value. rewrite visit_run. cbv zeta. cbn [fst].
  destruct (fst (fetch_html url (TIMEOUT env) _)) as [html|];
    [|discriminate].
  rewrite page_contains_text_haystack. cbn [Str.lower].
  rewrite StrFacts.contains_empty. discriminate.
Qed.

Lemma outcomes_empty_text (urls : list string) :
  forall past : trace,
    Forall (fun o => o <> miss)
      (value (outcomes env urls EmptyString selector) past).
Proof.
  induction urls as [|url rest IH]; intros past; [constructor|].
  unfold value. rewrite outcomes_step. cbv zeta. cbn [fst].
  constructor; [apply visit_empty_text | apply IH].
Qed.

(** X5: with the empty search text every page that is fetched is a hit: the
    misses [check_urls] returns are fetch errors only, each one an input URL
    with the tag appended. *)
Theorem empty_text_misses_are_errors (urls : list string) (past : trace)
    (entry : string) :
  In entry (snd (value (check_urls env urls EmptyString selector) past)) ->
  exists url, In url urls /\ entry = (url ++ " [fetch error]")%string.
Proof.
  rewrite check_urls_value. cbn [snd]. unfold misses_of.
  rewrite in_map_iff. intros [[url o] [<- Hin]].
  apply filter_In in Hin. destruct Hin as [Hin Ho].
  exists url. split; [now apply (in_combine_l _ _ _ _ Hin)|].
  pose proof (outcomes_empty_text urls past) as Hall.
  rewrite Forall_forall in Hall.
  specialize (Hall o (in_combine_r _ _ _ _ Hin)).
  destruct o; [discriminate | contradiction | reflexivity].
Qed.

End EmptySearchText.

(** ** [send_email]: the SMTP dialogue *)

Section SendEmailMore.

Context {net : Network}.
Variable env : Environment.

(** The two ways [send_email] goes: parameters missing, or one session whose
    end decides the answer and the last log line. *)
Lemma send_email_cases (subj body : string) (past : trace) :
  (smtp_incomplete env
   /\ send_email env subj body past
      = (false, [Log ERROR "SMTP credentials not fully configured."]))
  \/ exists o : smtp_outcome,
      send_email env subj body past
      = (match smtp_error o with
         | None => true
         | Some _ => false
         end,
         smtp_events (the (SMTP_SERVER env)) (SMTP_PORT env)
           (the (SMTP_USER env)) (the (SMTP_PASS env))
           {| msg_From := the (SMTP_USER env); msg_To := RECIPIENT env;
              msg_Subject := subj; msg_content := body |} o
         ++ [match smtp_error o with
             | None => Log INFO ("Email sent to " ++ RECIPIENT env)
             | Some e => Log ERROR ("Failed to send email: " ++ e)
             end]).
Proof.
  unfold send_email, smtp_incomplete. cbn [forallb].
  destruct (truthy_opt (SMTP_SERVER env)); [|left; split; auto].
  destruct (Z.eqb_spec (SMTP_PORT env) 0) as [Hp|Hp];
    [left; split; auto|].
  destruct (truthy_opt (SMTP_USER env)); [|left; split; auto].
  destruct (truthy_opt (SMTP_PASS env)); [|left; split; auto 6].
  right. cbn [negb andb].
  unfold bind, history, log, emit, ret. cbn [fst snd app].
  rewrite app_nil_r.
  match goal with
  | |- context [smtp_session ?p ?a ?b ?c ?d ?m] =>
      exists (smtp_session p a b c d m);
      destruct (smtp_session p a b c d m)
  end; reflexivity.
Qed.


(** X7: every failure of [send_email] is reported, not raised: when it
    returns false, the last thing it did was to log an error, and it never
    logged that a mail was sent. *)
Theorem send_email_false (subj body : string) (past : trace) :
  value (send_email env subj body) past = false ->
  (exists (before : list event) (reason : string),
      events (send_email env subj body) past
      = before ++ [Log ERROR reason])
  /\ forall text : string,
       ~ In (Log INFO text) (events (send_email env subj body) past).
Proof.
  unfold value, events.
  destruct (send_email_cases subj body past) as [[_ ->] | [o ->]];
    cbn [fst snd].
  - intros _. split.
    + exists [], "SMTP credentials not fully configured.". reflexivity.
    + intros text [H|[]]. discriminate.
  - destruct (smtp_error o) as [e|] eqn:E; [|discriminate]. intros _. split.
    + eexists. eexists. reflexivity.
    + intros text. rewrite in_app_iff. intros [H | [H | []]];
        [|discriminate].
      destruct o as [?|?|? []|? []|? []|?|]; cbn in H;
        repeat (destruct H as [H|H]; [discriminate|]); contradiction.
Qed.

(** A session that sends a message starts the way it should. *)
Lemma sent_in_smtp_events (server : string) (port : Z)
    (user password : string) (msg m : EmailMessage) (o : smtp_outcome) :
  In (SmtpSendMessage m) (smtp_events server port user password msg o) ->
  m = msg
  /\ exists closing : list event,
      smtp_events server port user password msg o
      = [SmtpConnect server port; SmtpStartTls; SmtpLogin user password;
         SmtpSendMessage msg] ++ closing
      /\ (closing = [SmtpQuit] \/ closing = []).
Proof.
  destruct o as [?|?|? []|? []|? []|?|]; cbn; intros H;
    repeat (destruct H as [H|H]; [try discriminate|]); try contradiction;
    injection H as <-; (split; [reflexivity|]);
    first [ exists [SmtpQuit]; split; [reflexivity | now left]
          | exists []; split; [reflexivity | now right] ].
Qed.

(** X8: no message goes out on a session that was not upgraded and
    authenticated, or with parameters missing: whenever [send_email] sends a
    message, all four parameters are set, and what it did starts with the
    connection, STARTTLS, the login and that message, in this order; what
    follows is at most a QUIT and then one log line. *)
Theorem send_email_only_after_login (subj body : string) (past : trace)
    (m : EmailMessage) :
  In (SmtpSendMessage m) (events (send_email env subj body) past) ->
  (truthy_opt (SMTP_SERVER env) = true /\ SMTP_PORT env <> 0%Z
   /\ truthy_opt (SMTP_USER env) = true
   /\ truthy_opt (SMTP_PASS env) = true)
  /\ exists (closing : list event) (line : event),
      events (send_email env subj body) past
      = [SmtpConnect (the (SMTP_SERVER env)) (SMTP_PORT env);
         SmtpStartTls;
         SmtpLogin (the (SMTP_USER env)) (the (SMTP_PASS env));
         SmtpSendMessage m]
        ++ closing ++ [line]
      /\ (closing = [SmtpQuit] \/ closing = [])
      /\ is_log line = true.
Proof.
  intros Hin. split.
  - assert (Hc : ~ smtp_incomplete env).
    { intros Hi. unfold events in Hin.
      rewrite (send_email_incomplete env subj body past Hi) in Hin.
      destruct Hin as [H|[]]. discriminate. }
    unfold smtp_incomplete in Hc.
    destruct (truthy_opt (SMTP_SERVER env)); [|tauto].
    destruct (truthy_opt (SMTP_USER env)); [|tauto].
    destruct (truthy_opt (SMTP_PASS env)); [|tauto].
    repeat split. tauto.
  - revert Hin. unfold events.
    destruct (send_email_cases subj body past) as [[_ ->] | [o ->]];
      cbn [fst snd].
    + intros [H|[]]. discriminate.
    + rewrite in_app_iff. intros [H | [H | []]].
      * destruct (sent_in_smtp_events _ _ _ _ _ _ _ H)
          as [-> [closing [-> Hclosing]]].
        exists closing. eexists. rewrite <- app_assoc.
        split; [reflexivity | split; [exact Hclosing|]].
        now destruct (smtp_error o).
      * destruct (smtp_error o); discriminate.
Qed.

Lemma send_email_no_fetch (subj body : string) (past : trace) :
  fetches (events (send_email env subj body) past) = [].
Proof.
  unfold events.
  destruct (send_email_cases subj body past) as [[_ ->] | [o ->]];
    cbn [fst snd]; [reflexivity|].
  unfold fetches. rewrite filter_app.
  destruct o as [?|?|? []|? []|? []|?|]; reflexivity.
Qed.

End SendEmailMore.

(** ** [page_contains_text]: what a selector searches *)

Lemma string_app_assoc (a b c : string) :
  ((a ++ b) ++ c)%string = (a ++ b ++ c)%string.
Proof. induction a as [|x a IH]; simpl; [reflexivity | now rewrite IH]. Qed.

Lemma string_app_nil_r (a : string) : (a ++ EmptyString)%string = a.
Proof. induction a as [|x a IH]; simpl; [reflexivity | now rewrite IH]. Qed.

Lemma is_substring_trans (a b c : string) :
  is_substring a b -> is_substring b c -> is_substring a c.
Proof.
  intros [p1 [q1 ->]] [p2 [q2 ->]].
  exists (p2 ++ p1)%string, (q1 ++ q2)%string.
  now rewrite !string_app_assoc.
Qed.

Lemma is_substring_lower (a b : string) :
  is_substring a b -> is_substring (Str.lower a) (Str.lower b).
Proof.
  intros [p [q ->]]. exists (Str.lower p), (Str.lower q).
  now rewrite !StrFacts.lower_app.
Qed.

Lemma in_join_substring (sep x : string) (items : list string) :
  In x items -> is_substring x (Str.join sep items).
Proof.
  induction items as [|y rest IH]; [contradiction|].
  intros [-> | Hin].
  - destruct rest as [|z rest].
    + exists EmptyString, EmptyString. simpl. now rewrite string_app_nil_r.
    + exists EmptyString, (sep ++ Str.join sep (z :: rest))%string.
      reflexivity.
  - destruct rest as [|z rest]; [contradiction|].
    destruct (IH Hin) as [p [q H]].
    exists (y ++ sep ++ p)%string, q.
    change (Str.join sep (y :: z :: rest))
      with (y ++ sep ++ Str.join sep (z :: rest))%string.
    rewrite H. now rewrite !string_app_assoc.
Qed.

Section SelectorMore.

Context {bs4 : HtmlLib}.
Import Str StrFacts.

(** X10: under a selector, one matching element is enough: if the text of
    any selected element holds the search text, letter case apart,
    [page_contains_text] returns true, whatever the other selected elements
    and the rest of the page hold. *)
Theorem selected_element_matches (html text css_selector : string)
    (el : tag) :
  css_selector <> EmptyString ->
  In el (select (BeautifulSoup html) css_selector) ->
  is_substring (lower text) (lower (get_text el)) ->
  page_contains_text html text css_selector = true.
Proof.
  intros Hsel Hin Hsub. unfold page_contains_text.
  apply truthy_true in Hsel. rewrite Hsel.
  apply contains_spec.
  apply (is_substring_trans _ (lower (get_text el))); [exact Hsub|].
  apply is_substring_lower, in_join_substring.
  now apply in_map.
Qed.

(** X11: a selector setting that is not given, or is made of whitespace
    only, is no selector: the text searched is then the visible text of the
    whole document. *)
Theorem blank_selector_whole_page (env : Environment) (html text : string) :
  (env_CSS_SELECTOR env = None
   \/ exists s, env_CSS_SELECTOR env = Some s /\ blank s = true) ->
  page_contains_text html text (CSS_SELECTOR env)
  = contains (lower text) (lower (get_text (BeautifulSoup html))).
Proof.
  intros H.
  assert (Hsel : CSS_SELECTOR env = EmptyString).
  { unfold CSS_SELECTOR. destruct H as [-> | [s [-> Hs]]];
      [reflexivity | now apply strip_blank]. }
  now rewrite Hsel.
Qed.

End SelectorMore.

(** ** [main]: what a run requests and what its mail says *)

Lemma fetches_app (a b : list event) : fetches (a ++ b) = fetches a ++ fetches b.
Proof. apply filter_app. Qed.

Lemma fetches_log (e : event) (evs : list event) :
  is_fetch e = false -> fetches (e :: evs) = fetches evs.
Proof. intros H. unfold fetches. simpl. now rewrite H. Qed.

Lemma quiet_sends_nothing (evs : list event) (m : EmailMessage) :
  smtp_calls evs = [] -> ~ In (SmtpSendMessage m) evs.
Proof.
  intros Hq Hin.
  assert (In (SmtpSendMessage m) (smtp_calls evs)) as Hs
    by (apply filter_In; now split).
  now rewrite Hq in Hs.
Qed.

Section MainMore.

Context {json : JsonLib} {bs4 : HtmlLib} {net : Network}.
Variable env : Environment.

Lemma check_urls_fetches (urls : list string) (text sel : string)
    (past : trace) :
  fetches (events (check_urls env urls text sel) past)
  = map (fun u => HttpGet u (TIMEOUT env)) urls.
Proof.
  rewrite <- fetches_actions, check_urls_events, outcomes_actions.
  apply fetches_paced.
Qed.

(** X12: a run requests exactly the URLs [parse_urls] returned for the
    stripped setting, once each, in their order and with the configured
    timeout, whether or not a mail follows; and every URL it requests is
    trimmed and not empty. *)
Theorem main_requests_parsed_urls (past : trace) :
  fetches (events (main env) past)
  = map (fun u => HttpGet u (TIMEOUT env))
      (value (parse_urls (_TARGET_URLS_RAW env)) past)
  /\ forall (url : string) (t : Z),
       In (HttpGet url t) (events (main env) past) ->
       Str.trimmed url = true /\ url <> EmptyString.
Proof.
  assert (Hfetch : fetches (events (main env) past)
                   = map (fun u => HttpGet u (TIMEOUT env))
                       (value (parse_urls (_TARGET_URLS_RAW env)) past)).
  { rewrite (events_run _ _ _ (main_run env past)). cbv zeta.
    destruct (value (parse_urls (_TARGET_URLS_RAW env)) past) as [|u urls].
    - cbn [snd]. now rewrite fetches_app, parse_urls_no_fetch.
    - destruct (fst (value (check_urls env (u :: urls) (SEARCH_TEXT env)
                              (CSS_SELECTOR env)) _)); cbn [snd].
      + rewrite !fetches_app, parse_urls_no_fetch, check_urls_fetches.
        cbn [fetches filter is_fetch done_line app]. now rewrite app_nil_r.
      + rewrite !fetches_app, fetches_log by reflexivity.
        rewrite parse_urls_no_fetch, check_urls_fetches, send_email_no_fetch.
        cbn [app]. now rewrite app_nil_r. }
  split; [exact Hfetch|].
  intros url t Hin.
  assert (Hf : In (HttpGet url t) (fetches (events (main env) past)))
    by (apply filter_In; now split).
  rewrite Hfetch, in_map_iff in Hf. destruct Hf as [u [[= -> _] Hu]].
  destruct (parse_urls_entry _ _ _ Hu) as [[-> Hne] | Hs].
  - split; [apply StrFacts.trimmed_strip | now apply StrFacts.truthy_true].
  - now apply stripped_entry.
Qed.

(** X13: whatever the number of hits, a message the run sends goes to the
    recipient, its subject gives the search text and the number of hits out
    of the number of URLs, and its body lists the search text, the selector
    or N/A, every hit under Found on and every miss, or (none), under
    Not found on; there is at least one hit, and hits and misses together
    are as many as the URLs. *)
Theorem alert_reports_all (past : trace) (m : EmailMessage) :
  let urls := value (parse_urls (_TARGET_URLS_RAW env)) past in
  let e1 := events (parse_urls (_TARGET_URLS_RAW env)) past in
  let found :=
    value (check_urls env urls (SEARCH_TEXT env) (CSS_SELECTOR env))
      (past ++ e1) in
  let hits := fst found in
  let misses := snd found in
  In (SmtpSendMessage m) (events (main env) past) ->
  1 <= List.length hits
  /\ List.length hits + List.length misses = List.length urls
  /\ msg_To m = RECIPIENT env
  /\ msg_Subject m
     = ("[ALERT] Found '" ++ SEARCH_TEXT env ++ "' on "
        ++ Str.of_nat (List.length hits) ++ "/"
        ++ Str.of_nat (List.length urls) ++ " URL(s)")%string
  /\ msg_content m
     = Str.join (Str.chr Str.LF)
         ([("Search text: '" ++ SEARCH_TEXT env ++ "'")%string;
           ("CSS selector: '"
            ++ (if Str.truthy (CSS_SELECTOR env) then CSS_SELECTOR env
                else "N/A")
            ++ "'")%string;
           EmptyString;
           "Found on:"]
          ++ map (fun u : string => ("- " ++ u)%string) hits
          ++ [EmptyString; "Not found on:"]
          ++ match misses with
             | [] => ["- (none)"]
             | _ :: _ => map (fun u : string => ("- " ++ u)%string) misses
             end
          ++ [EmptyString; "Checked by monitor.py"]).
Proof.
  intros urls e1 found hits misses.
  pose proof (check_urls_lengths env urls (SEARCH_TEXT env)
                (CSS_SELECTOR env) (past ++ e1)) as Hlen.
  fold found in Hlen. fold hits misses in Hlen.
  rewrite (events_run _ _ _ (main_run env past)). cbv zeta.
  fold urls e1. fold found. fold hits misses.
  assert (Hq1 : smtp_calls e1 = []) by apply parse_urls_no_smtp.
  destruct urls as [|u0 urls0] eqn:Eu.
  - cbn [snd]. intros Hin. exfalso.
    apply (quiet_sends_nothing _ m) in Hin; [exact Hin|].
    now rewrite smtp_calls_app, Hq1.
  - destruct hits as [|h hs] eqn:Eh; cbn [snd].
    + intros Hin. exfalso.
      apply (quiet_sends_nothing _ m) in Hin; [exact Hin|].
      now rewrite !smtp_calls_app, Hq1, check_urls_no_smtp.
    + rewrite !in_app_iff. intros [Hin | [Hin | Hin]].
      * exfalso. now apply (quiet_sends_nothing _ m Hq1).
      * exfalso.
        now apply (quiet_sends_nothing _ m
                     (check_urls_no_smtp env _ _ _ _) Hin).
      * destruct Hin as [Hin | Hin]; [discriminate|].
        apply send_email_message in Hin. destruct Hin as [Hs [Hb Ht]].
        split; [simpl; lia | split; [exact Hlen | split; [exact Ht|]]].
        split; [exact Hs | exact Hb].
Qed.

End MainMore.

(** ** The further properties on concrete inputs *)

Module Checks.
Import Reference.

(** X1 on an address in brackets, which is no JSON. *)
Lemma parse_urls_json_fallback_witness :
  parse_urls (json := Json) "[::1]:8080/stock, https://b.test" []
  = (["[::1]:8080/stock"; "https://b.test"],
     [Log WARNING
        "Failed to parse TARGET_URLS as JSON; will try splitting text."]).
Proof.
  apply (proj1 (parse_urls_json_fallback (json := Json)
                  "[::1]:8080/stock, https://b.test" []));
    reflexivity.
Defined.

(** X2 on separators alone. *)
Lemma parse_urls_text_not_empty_witness :
  exists (u : string) (rest : list string),
    value (parse_urls (json := Json) ",,") [] = u :: rest.
Proof.
  apply (parse_urls_text_not_empty (json := Json) ",,");
    [discriminate | reflexivity].
Defined.

(** X5 on three URLs, the third of which cannot be fetched. *)
Lemma empty_text_misses_are_errors_witness :
  exists url : string,
    In url ["https://a.test"; "https://b.test"; "https://c.test"]
    /\ "https://c.test [fetch error]" = (url ++ " [fetch error]")%string.
Proof.
  apply (empty_text_misses_are_errors (bs4 := Html) (net := Shop)
           (settings (Some three_urls)) EmptyString
           ["https://a.test"; "https://b.test"; "https://c.test"] []).
  vm_compute. left. reflexivity.
Defined.


(** X7 with a relay that refuses the login. *)
Lemma send_email_false_witness :
  exists (before : list event) (reason : string),
    events (send_email (net := Rejecting) (settings None) "subject" "body") []
    = before ++ [Log ERROR reason].
Proof.
  apply (send_email_false (net := Rejecting) (settings None) "subject"
           "body" []).
  reflexivity.
Defined.

(** X8 with a relay that works. *)
Lemma send_email_only_after_login_witness :
  exists (closing : list event) (line : event),
    events (send_email (net := Shop) (settings None) "subject" "body") []
    = [SmtpConnect "smtp.test" 587; SmtpStartTls;
       SmtpLogin "monitor@smtp.test" "secret";
       SmtpSendMessage
         {| msg_From := "monitor@smtp.test";
            msg_To := "slava15.92@gmail.com";
            msg_Subject := "subject"; msg_content := "body" |}]
      ++ closing ++ [line]
    /\ (closing = [SmtpQuit] \/ closing = [])
    /\ is_log line = true.
Proof.
  apply (send_email_only_after_login (net := Shop) (settings None) "subject"
           "body" []
           {| msg_From := "monitor@smtp.test";
              msg_To := "slava15.92@gmail.com";
              msg_Subject := "subject"; msg_content := "body" |}).
  vm_compute. do 3 right. left. reflexivity.
Defined.

(** When the relay goes away during the send, no QUIT follows. *)
Example send_email_dropped :
  send_email (net := Dropping) (settings None) "subject" "body" []
  = (false,
     [SmtpConnect "smtp.test" 587; SmtpStartTls;
      SmtpLogin "monitor@smtp.test" "secret";
      SmtpSendMessage
        {| msg_From := "monitor@smtp.test";
           msg_To := "slava15.92@gmail.com";
           msg_Subject := "subject"; msg_content := "body" |};
      Log ERROR "Failed to send email: Server not connected"]).
Proof. reflexivity. Qed.

(** X10 on the page with the words in its paragraph. *)
Lemma selected_element_matches_witness :
  page_contains_text (bs4 := Html) sold_out_page "sold OUT" "p" = true.
Proof.
  apply (selected_element_matches (bs4 := Html) sold_out_page "sold OUT" "p"
           (Element "p" [Text "Sold Out Today"]));
    [discriminate | left; reflexivity
     | exists EmptyString, " today"; reflexivity].
Defined.

(** X11 with a selector of three spaces. *)
Lemma blank_selector_whole_page_witness :
  page_contains_text (bs4 := Html) sold_out_page "widget"
    (CSS_SELECTOR (spaced_selector None))
  = Str.contains "widget" "widget sold out today".
Proof.
  apply (blank_selector_whole_page (bs4 := Html) (spaced_selector None)
           sold_out_page "widget").
  right. exists "   ". split; reflexivity.
Defined.

(** X12 on three URLs. *)
Lemma main_requests_parsed_urls_witness :
  Str.trimmed "https://c.test" = true /\ "https://c.test" <> EmptyString.
Proof.
  apply (proj2 (main_requests_parsed_urls (json := Json) (bs4 := Html)
                  (net := Shop) (settings (Some three_urls)) [])
           "https://c.test" 20%Z).
  vm_compute. do 7 right. left. reflexivity.
Defined.

(** X13 on three URLs: one hit, one miss, one fetch error. *)
Lemma alert_reports_all_witness :
  exists m : EmailMessage,
    In (SmtpSendMessage m)
      (events (main (json := Json) (bs4 := Html) (net := Shop)
                 (settings (Some three_urls))) [])
    /\ msg_Subject m = "[ALERT] Found 'SOLD OUT' on 1/3 URL(s)"
    /\ msg_content m
       = Str.join (Str.chr Str.LF)
           ["Search text: 'SOLD OUT'"; "CSS selector: 'N/A'"; EmptyString;
            "Found on:"; "- https://a.test"; EmptyString;
            "Not found on:"; "- https://b.test";
            "- https://c.test [fetch error]"; EmptyString;
            "Checked by monitor.py"].
Proof.
  assert (Hin : exists m : EmailMessage,
             In (SmtpSendMessage m)
               (events (main (json := Json) (bs4 := Html) (net := Shop)
                          (settings (Some three_urls))) [])).
  { eexists. vm_compute. repeat (first [left; reflexivity | right]). }
  destruct Hin as [m Hin]. exists m. split; [exact Hin|].
  pose proof (alert_reports_all (json := Json) (bs4 := Html) (net := Shop)
                (settings (Some three_urls)) [] m) as H.
  cbv zeta in H. destruct (H Hin) as [_ [_ [_ [Hs Hb]]]].
  split; [exact Hs | exact Hb].
Defined.

End Checks.
